(** * cdp-console.py: the CDP console streamer

    A shallow embedding of [examples/browser-debugging/scripts/cdp-console.py]
    (class [CDPConsole]) and the properties of its correlation layer, its
    remote-object materializer and its event formatter.

    Layout: Python values and the builtin operations the script uses,
    [json.dumps], the interpreter state (session fields, futures, channel,
    standard output), the methods of [CDPConsole] in source order, and then
    the theorems. *)

From Stdlib Require Import ZArith String Ascii List Lia Bool.
From stdpp Require Import base option list gmap strings pretty.

Set Warnings "-register-all".

Open Scope string_scope.
Open Scope list_scope.
Open Scope stdpp_scope.
Open Scope Z_scope.

(** ** Python values

    What [json.loads] produces and what the script builds from it.  JSON
    numbers are restricted to integers (floats are outside the model).
    Strings are byte strings (UTF-8).  A dict is an insertion-ordered
    association list; its keys are the hashable scalars. *)

Inductive hkey :=
| HNone
| HBool (b : bool)
| HInt (n : Z)
| HStr (s : string).

Inductive pyval :=
| PNone
| PBool (b : bool)
| PInt (n : Z)
| PStr (s : string)
| PList (l : list pyval)
| PDict (d : list (hkey * pyval)).

(** Exceptions.  [CancelledError] derives from [BaseException], all others
    from [Exception].  [CancelledError true] is the cancellation injected by
    the expiry of an enclosing [asyncio.wait_for]; that [wait_for] turns it
    into [TimeoutError]. *)

Inductive type_error :=
| NotIterable (ty : string)        (* for x in v *)
| NotContainer (ty : string)       (* k in v *)
| Unhashable (ty : string)         (* d[v] = ..., v in d *)
| BadIndex (ty : string)           (* v["k"] on a list or a str *)
| NotSubscriptable (ty : string)   (* v["k"] on a scalar *)
| JoinItem (i : nat) (ty : string) (* sep.join(l), l[i] not a str *).

Inductive exn :=
| TimeoutError
| CancelledError (by_deadline : bool)
| JSONDecodeError (what : string)
| ConnectionClosed
| InvalidStateError
| AttributeError (ty attr : string)
| TypeError (e : type_error)
| KeyError (k : string)
| OtherError (what : string).

Inductive result (A : Type) :=
| Ok (x : A)
| Raise (e : exn).
Arguments Ok {A} x.
Arguments Raise {A} e.

(** [except Exception] catches everything but [CancelledError]. *)
Definition is_Exception (e : exn) : bool :=
  match e with
  | CancelledError _ => false
  | _ => true
  end.

(** The exceptions the script's own statements can raise: neither a
    cancellation nor a decoding error. *)
Definition script_error (e : exn) : bool :=
  match e with
  | CancelledError _ | JSONDecodeError _ => false
  | _ => true
  end.

Definition rbind {A B} (r : result A) (k : A -> result B) : result B :=
  match r with
  | Ok x => k x
  | Raise e => Raise e
  end.

(** ** Builtin operations *)

Definition nl : ascii := "010"%char.
Definition dquote : ascii := "034"%char.
Definition NL : string := String nl EmptyString.

Definition type_name (v : pyval) : string :=
  match v with
  | PNone => "NoneType"
  | PBool _ => "bool"
  | PInt _ => "int"
  | PStr _ => "str"
  | PList _ => "list"
  | PDict _ => "dict"
  end.

(** Key equality is Python's [==] on hashable scalars: [True == 1],
    [False == 0]. *)
Definition key_num (k : hkey) : option Z :=
  match k with
  | HBool true => Some 1
  | HBool false => Some 0
  | HInt n => Some n
  | _ => None
  end.

Definition hkey_eqb (a b : hkey) : bool :=
  match a, b with
  | HNone, HNone => true
  | HStr s, HStr t => String.eqb s t
  | HNone, _ | _, HNone | HStr _, _ | _, HStr _ => false
  | _, _ =>
      match key_num a, key_num b with
      | Some x, Some y => Z.eqb x y
      | _, _ => false
      end
  end.

Definition to_hkey (v : pyval) : result hkey :=
  match v with
  | PNone => Ok HNone
  | PBool b => Ok (HBool b)
  | PInt n => Ok (HInt n)
  | PStr s => Ok (HStr s)
  | PList _ | PDict _ => Raise (TypeError (Unhashable (type_name v)))
  end.

Definition of_hkey (k : hkey) : pyval :=
  match k with
  | HNone => PNone
  | HBool b => PBool b
  | HInt n => PInt n
  | HStr s => PStr s
  end.

Fixpoint dict_get (d : list (hkey * pyval)) (k : hkey) : option pyval :=
  match d with
  | [] => None
  | (k', v) :: d' => if hkey_eqb k' k then Some v else dict_get d' k
  end.

(** [d[k] = v]: an equal key keeps its place (and the key object first
    inserted), a new key goes last. *)
Fixpoint dict_set (d : list (hkey * pyval)) (k : hkey) (v : pyval)
  : list (hkey * pyval) :=
  match d with
  | [] => [(k, v)]
  | (k', v') :: d' =>
      if hkey_eqb k' k then (k', v) :: d' else (k', v') :: dict_set d' k v
  end.

(** [obj[name] = v] with [name] any value. *)
Definition py_setitem (d : list (hkey * pyval)) (name v : pyval)
  : result (list (hkey * pyval)) :=
  rbind (to_hkey name) (fun k => Ok (dict_set d k v)).

(** [v.get(k, dflt)] *)
Definition py_get (v : pyval) (k : string) (dflt : pyval) : result pyval :=
  match v with
  | PDict d => Ok (default dflt (dict_get d (HStr k)))
  | _ => Raise (AttributeError (type_name v) "get")
  end.

Fixpoint contains (needle s : string) : bool :=
  String.prefix needle s
  || match s with
     | EmptyString => false
     | String _ s' => contains needle s'
     end.

Definition is_str (k : string) (v : pyval) : bool :=
  match v with
  | PStr s => String.eqb s k
  | _ => false
  end.

(** ["k" in v]: key of a dict, element of a list, substring of a str. *)
Definition py_in (k : string) (v : pyval) : result bool :=
  match v with
  | PDict d => Ok (bool_decide (is_Some (dict_get d (HStr k))))
  | PList l => Ok (existsb (is_str k) l)
  | PStr s => Ok (contains k s)
  | _ => Raise (TypeError (NotContainer (type_name v)))
  end.

(** [v["k"]] *)
Definition py_getitem (v : pyval) (k : string) : result pyval :=
  match v with
  | PDict d =>
      match dict_get d (HStr k) with
      | Some x => Ok x
      | None => Raise (KeyError k)
      end
  | PList _ | PStr _ => Raise (TypeError (BadIndex (type_name v)))
  | _ => Raise (TypeError (NotSubscriptable (type_name v)))
  end.

Fixpoint chars (s : string) : list pyval :=
  match s with
  | EmptyString => []
  | String c s' => PStr (String c EmptyString) :: chars s'
  end.

(** The items [for x in v] visits: the elements of a list, the keys of a
    dict, the characters of a str. *)
Definition py_iter (v : pyval) : result (list pyval) :=
  match v with
  | PList l => Ok l
  | PDict d => Ok (map (fun kv => of_hkey (fst kv)) d)
  | PStr s => Ok (chars s)
  | _ => Raise (TypeError (NotIterable (type_name v)))
  end.

(** Truth value, as [if v:] takes it. *)
Definition py_truthy (v : pyval) : bool :=
  match v with
  | PNone => false
  | PBool b => b
  | PInt n => negb (Z.eqb n 0)
  | PStr s => negb (String.eqb s EmptyString)
  | PList l => negb (bool_decide (l = []))
  | PDict d => negb (bool_decide (d = []))
  end.

(** [isinstance(v, (dict, list))] and [isinstance(v, dict)] *)
Definition is_container (v : pyval) : bool :=
  match v with
  | PList _ | PDict _ => true
  | _ => false
  end.

Definition is_dict (v : pyval) : bool :=
  match v with
  | PDict _ => true
  | _ => false
  end.

Fixpoint join (sep : string) (l : list string) : string :=
  match l with
  | [] => EmptyString
  | [s] => s
  | s :: l' => s +:+ sep +:+ join sep l'
  end.

(** [sep.join(l)]: every item has to be a str. *)
Fixpoint strs_from (i : nat) (l : list pyval) : result (list string) :=
  match l with
  | [] => Ok []
  | PStr s :: l' => rbind (strs_from (S i) l') (fun r => Ok (s :: r))
  | v :: _ => Raise (TypeError (JoinItem i (type_name v)))
  end.

Definition py_join (sep : string) (l : list pyval) : result string :=
  rbind (strs_from 0 l) (fun ss => Ok (join sep ss)).

(** [s.split("\n")] *)
Fixpoint split_lines (s : string) : list string :=
  match s with
  | EmptyString => [EmptyString]
  | String c s' =>
      if Ascii.eqb c nl then EmptyString :: split_lines s'
      else match split_lines s' with
           | h :: t => String c h :: t
           | [] => [String c EmptyString]
           end
  end.

(** ** [json.dumps(v, ensure_ascii=False, indent=2)] *)

Definition hex_digit (n : nat) : ascii :=
  nth n (list_ascii_of_string "0123456789abcdef") "0"%char.

Definition escape_char (c : ascii) : string :=
  let n := nat_of_ascii c in
  if Ascii.eqb c dquote then String "\" (String dquote EmptyString)
  else if Ascii.eqb c "\" then "\\"
  else if Nat.eqb n 10 then "\n"
  else if Nat.eqb n 13 then "\r"
  else if Nat.eqb n 9 then "\t"
  else if Nat.eqb n 8 then "\b"
  else if Nat.eqb n 12 then "\f"
  else if Nat.ltb n 32 then
    "\u00" +:+ String (hex_digit (n / 16)) (String (hex_digit (n mod 16)) EmptyString)
  else String c EmptyString.

Fixpoint escape (s : string) : string :=
  match s with
  | EmptyString => EmptyString
  | String c s' => escape_char c +:+ escape s'
  end.

Definition json_quote (s : string) : string :=
  String dquote (escape s +:+ String dquote EmptyString).

(** A key is written as a JSON string: a str as it is, an int in decimal,
    [True]/[False]/[None] as [true]/[false]/[null]. *)
Definition key_text (k : hkey) : string :=
  match k with
  | HNone => "null"
  | HBool true => "true"
  | HBool false => "false"
  | HInt n => pretty n
  | HStr s => s
  end.

Fixpoint spaces (n : nat) : string :=
  match n with
  | O => EmptyString
  | S n' => String " " (spaces n')
  end.

Definition newline_indent (level : nat) : string :=
  String nl (spaces (2 * level)).

Fixpoint dumps_at (level : nat) (v : pyval) {struct v} : string :=
  match v with
  | PNone => "null"
  | PBool true => "true"
  | PBool false => "false"
  | PInt n => pretty n
  | PStr s => json_quote s
  | PList l =>
      match l with
      | [] => "[]"
      | _ =>
          "[" +:+ newline_indent (S level)
          +:+ join ("," +:+ newline_indent (S level))
                (map (dumps_at (S level)) l)
          +:+ newline_indent level +:+ "]"
      end
  | PDict d =>
      match d with
      | [] => "{}"
      | _ =>
          "{" +:+ newline_indent (S level)
          +:+ join ("," +:+ newline_indent (S level))
                (map (fun kv => json_quote (key_text (fst kv)) +:+ ": "
                                +:+ dumps_at (S level) (snd kv)) d)
          +:+ newline_indent level +:+ "}"
      end
  end.

Definition json_dumps (v : pyval) : string := dumps_at 0 v.

(** ** Interpreter state

    The fields of a [CDPConsole] object, plus what the methods reach through
    them: the futures created by [create_future] (a request's future is
    shared by [self.pending] and by the coroutine awaiting it, so futures
    live in a store and [pending] holds addresses), the channel with the
    messages written to it, and the lines printed so far.  A sent message is
    recorded as the value handed to [json.dumps]. *)

Inductive future :=
| FPending
| FResult (v : pyval)
| FCancelled.

Record channel := {
  closed : bool;
  sent : list pyval;
}.

Record CDPConsole := {
  ws : option channel;
  msg_id : Z;
  pending : gmap Z nat;
  running : bool;
  futures : list future;
  stdout : list string;
}.

(** [CDPConsole.__init__] *)
Definition init : CDPConsole :=
  {| ws := None; msg_id := 0; pending := ∅; running := true;
     futures := []; stdout := [] |}.

Definition set_ws (c : option channel) (st : CDPConsole) : CDPConsole :=
  {| ws := c; msg_id := msg_id st; pending := pending st;
     running := running st; futures := futures st; stdout := stdout st |}.
Definition set_msg_id (n : Z) (st : CDPConsole) : CDPConsole :=
  {| ws := ws st; msg_id := n; pending := pending st;
     running := running st; futures := futures st; stdout := stdout st |}.
Definition set_pending (p : gmap Z nat) (st : CDPConsole) : CDPConsole :=
  {| ws := ws st; msg_id := msg_id st; pending := p;
     running := running st; futures := futures st; stdout := stdout st |}.
Definition set_running (b : bool) (st : CDPConsole) : CDPConsole :=
  {| ws := ws st; msg_id := msg_id st; pending := pending st;
     running := b; futures := futures st; stdout := stdout st |}.
Definition set_futures (h : list future) (st : CDPConsole) : CDPConsole :=
  {| ws := ws st; msg_id := msg_id st; pending := pending st;
     running := running st; futures := h; stdout := stdout st |}.
Definition set_stdout (o : list string) (st : CDPConsole) : CDPConsole :=
  {| ws := ws st; msg_id := msg_id st; pending := pending st;
     running := running st; futures := futures st; stdout := o |}.

(** Methods are state transformers that return a value or raise. *)
Definition M (A : Type) : Type := CDPConsole -> CDPConsole * result A.

Definition ret {A} (x : A) : M A := fun st => (st, Ok x).
Definition raise {A} (e : exn) : M A := fun st => (st, Raise e).
Definition lift {A} (r : result A) : M A := fun st => (st, r).
Definition bind {A B} (m : M A) (k : A -> M B) : M B :=
  fun st =>
    match m st with
    | (st', Ok x) => k x st'
    | (st', Raise e) => (st', Raise e)
    end.
Definition get : M CDPConsole := fun st => (st, Ok st).
Definition modify (f : CDPConsole -> CDPConsole) : M unit :=
  fun st => (f st, Ok tt).

Notation "x <~ m ;; k" := (bind m (fun x => k))
  (at level 100, m at next level, right associativity).
Notation "m ;;; k" := (bind m (fun _ => k))
  (at level 100, right associativity).

(** [print(s, flush=True)] *)
Definition print (s : string) : M unit :=
  modify (fun st => set_stdout (stdout st ++ [s]) st).

(** [await self.ws.send(json.dumps(msg))]; the write itself is taken to
    complete at once. *)
Definition ws_send (msg : pyval) : M unit :=
  fun st =>
    match ws st with
    | None => (st, Raise (AttributeError "NoneType" "send"))
    | Some ch =>
        if closed ch then (st, Raise ConnectionClosed)
        else (set_ws (Some {| closed := false; sent := sent ch ++ [msg] |}) st,
              Ok tt)
    end.

Definition command (id : Z) (method : string) : pyval :=
  PDict [(HStr "id", PInt id); (HStr "method", PStr method)].

(** [CDPConsole.connect]; [dial] is the outcome of
    [asyncio.wait_for(websockets.connect(self.ws_url), timeout=10.0)]. *)
Definition connect (dial : result unit) : M unit :=
  _u <~ lift dial ;;
  modify (set_ws (Some {| closed := false; sent := [] |})) ;;;
  ws_send (command 1 "Runtime.enable") ;;;
  ws_send (command 2 "Console.enable") ;;;
  ws_send (command 3 "Log.enable") ;;;
  modify (set_msg_id 3).

(** [CDPConsole.close] *)
Definition close (st : CDPConsole) : CDPConsole :=
  let st := set_running false st in
  match ws st with
  | Some ch => set_ws (Some {| closed := true; sent := sent ch |}) st
  | None => st
  end.

(** [future.set_result(v)] *)
Definition set_result (a : nat) (v : pyval) : M unit :=
  fun st =>
    match futures st !! a with
    | Some FPending => (set_futures (<[a := FResult v]> (futures st)) st, Ok tt)
    | _ => (st, Raise InvalidStateError)
    end.

(** [key in self.pending], and the entry found.  The keys of [pending] are
    the ints [send_command] put there. *)
Definition pending_find (key : pyval) (st : CDPConsole)
  : result (option (Z * nat)) :=
  rbind (to_hkey key) (fun k =>
    Ok (n ← key_num k; a ← pending st !! n; Some (n, a))).

(** The first statement of [handle_message]: a frame whose id is pending
    resolves that request.  Returns whether the frame was consumed. *)
Definition handle_reply (msg : pyval) : M bool :=
  has_id <~ lift (py_in "id" msg) ;;
  if negb has_id then ret false
  else
    id <~ lift (py_getitem msg "id") ;;
    st <~ get ;;
    found <~ lift (pending_find id st) ;;
    match found with
    | None => ret false
    | Some (n, a) =>
        modify (fun st => set_pending (delete n (pending st)) st) ;;;
        set_result a msg ;;;
        ret true
    end.

(** ** Suspension

    While a coroutine is suspended on a future, other tasks of the event
    loop run.  Two things they can do touch the session: [close()] (the
    task the signal handler creates) and the reply branch of
    [handle_message] for a frame.  A schedule gives, for each future, what
    happens while its waiter is suspended.  The statements about single
    methods hold for every schedule; [run] below awaits [handle_message]
    before it asks the channel for the next frame, and [main] starts no
    other reader, so under [run] a schedule only ever contains [EnvClose]. *)

Inductive env_action :=
| EnvClose
| EnvReply (msg : pyval).

Definition schedule := nat -> list env_action.

Definition env_step (st : CDPConsole) (e : env_action) : CDPConsole :=
  match e with
  | EnvClose => close st
  | EnvReply msg => fst (handle_reply msg st)
  end.

Definition interleave (es : list env_action) (st : CDPConsole) : CDPConsole :=
  fold_left env_step es st.

(** Does the enclosing [wait_for] expire before a timer of [timeout]
    started inside it?  Times are in milliseconds. *)
Definition expires_first (deadline : option Z) (timeout : Z) : bool :=
  match deadline with
  | Some d => (d <=? timeout)%Z
  | None => false
  end.

(** [await asyncio.wait_for(future, timeout=timeout)] for the future at
    address [a].  If nothing resolved the future, the first timer to fire
    cancels it: the call's own timer raises [TimeoutError], the enclosing
    one raises [CancelledError] in the waiter. *)
Definition await_future (sched : schedule) (a : nat) (timeout : Z)
    (deadline : option Z) : M pyval :=
  fun st =>
    let st := interleave (sched a) st in
    match futures st !! a with
    | Some (FResult v) => (st, Ok v)
    | Some FCancelled => (st, Raise (CancelledError false))
    | _ =>
        (set_futures (<[a := FCancelled]> (futures st)) st,
         Raise (if expires_first deadline timeout
                then CancelledError true else TimeoutError))
    end.

(** [asyncio.wait_for(coro, timeout=d)] around a coroutine that was run
    with deadline [d]: its expiry surfaces as [TimeoutError]. *)
Definition wait_for {A} (m : M A) : M A :=
  fun st =>
    match m st with
    | (st', Raise (CancelledError true)) => (st', Raise TimeoutError)
    | r => r
    end.

(** [try: m except asyncio.TimeoutError: h1 except Exception as e: h2 e] *)
Definition try_except {A} (m : M A) (on_timeout : M A) (on_exception : exn -> M A)
  : M A :=
  fun st =>
    match m st with
    | (st', Raise TimeoutError) => on_timeout st'
    | (st', Raise e) =>
        if is_Exception e then on_exception e st' else (st', Raise e)
    | r => r
    end.

(** Lines 39-48 of [send_command]: a fresh id, the message, a new future
    registered under the id, the write.  Returns the id and the future. *)
Definition send_command_request (method : string) (params : option pyval)
  : M (Z * nat) :=
  modify (fun st => set_msg_id (msg_id st + 1) st) ;;;
  st <~ get ;;
  let id := msg_id st in
  let msg :=
    match params with
    | Some p =>
        if py_truthy p
        then PDict [(HStr "id", PInt id); (HStr "method", PStr method);
                    (HStr "params", p)]
        else command id method
    | None => command id method
    end in
  let a := length (futures st) in
  modify (fun st => set_futures (futures st ++ [FPending]) st) ;;;
  modify (fun st => set_pending (<[id := a]> (pending st)) st) ;;;
  ws_send msg ;;;
  ret (id, a).

Definition timeout_result : pyval := PDict [(HStr "error", PStr "timeout")].

(** [CDPConsole.send_command]; [deadline] is the timeout of the
    [asyncio.wait_for] the call runs inside, if any. *)
Definition send_command (sched : schedule) (method : string)
    (params : option pyval) (timeout : Z) (deadline : option Z) : M pyval :=
  req <~ send_command_request method params ;;
  let '(id, a) := req in
  fun st =>
    match await_future sched a timeout deadline st with
    | (st', Raise TimeoutError) =>
        (set_pending (delete id (pending st')) st', Ok timeout_result)
    | r => r
    end.

(** [CDPConsole.preview_to_dict] *)
Fixpoint preview_props (items : list pyval) (obj : list (hkey * pyval))
  : result (list (hkey * pyval)) :=
  match items with
  | [] => Ok obj
  | prop :: rest =>
      rbind (py_get prop "name" (PStr "?")) (fun name =>
      rbind (py_get prop "description" (PStr "...")) (fun d =>
      rbind (py_get prop "value" d) (fun v =>
      rbind (py_setitem obj name v) (fun obj' =>
      preview_props rest obj'))))
  end.

Definition preview_to_dict (preview : pyval) : result (list (hkey * pyval)) :=
  rbind (py_get preview "properties" (PList [])) (fun props =>
  rbind (py_iter props) (fun items =>
  rbind (preview_props items []) (fun obj =>
  rbind (py_get preview "overflow" PNone) (fun overflow =>
  if py_truthy overflow
  then Ok (dict_set obj (HStr "...") (PStr "(truncated)"))
  else Ok obj)))).

Definition getProperties_params (object_id : pyval) : pyval :=
  PDict [(HStr "objectId", object_id);
         (HStr "ownProperties", PBool true);
         (HStr "generatePreview", PBool true)].

Section Interp.

(** What the Python runtime and the libraries decide: [repr] of a list or
    dict (reached through [str] and f-strings), the text [str(e)] of an
    exception. *)
Variable py_repr : pyval -> string.
Variable str_exn : exn -> string.

(** [str(v)], also what an f-string field prints. *)
Definition py_str (v : pyval) : string :=
  match v with
  | PNone => "None"
  | PBool true => "True"
  | PBool false => "False"
  | PInt n => pretty n
  | PStr s => s
  | PList _ | PDict _ => py_repr v
  end.

Variable sched : schedule.

(** The [for prop in props] loop of [get_object_properties]; [recurse]
    is the method itself at [max_depth - 1], present when
    [max_depth > 0]. *)
Fixpoint properties_loop (recurse : option (pyval -> M pyval))
    (items : list pyval) (obj : list (hkey * pyval))
  : M (list (hkey * pyval)) :=
  match items with
  | [] => ret obj
  | prop :: rest =>
      name <~ lift (py_get prop "name" (PStr "?")) ;;
      value_desc <~ lift (py_get prop "value" (PDict [])) ;;
      has_value <~ lift (py_in "value" value_desc) ;;
      obj' <~
        (if has_value : bool then
           v <~ lift (py_getitem value_desc "value") ;;
           lift (py_setitem obj name v)
         else
           ty <~ lift (py_get value_desc "type" PNone) ;;
           match is_str "object" ty, recurse with
           | true, Some get_properties =>
               has_id <~ lift (py_in "objectId" value_desc) ;;
               if has_id : bool then
                 object_id <~ lift (py_getitem value_desc "objectId") ;;
                 v <~ get_properties object_id ;;
                 lift (py_setitem obj name v)
               else
                 has_preview <~ lift (py_in "preview" value_desc) ;;
                 if has_preview : bool then
                   preview <~ lift (py_getitem value_desc "preview") ;;
                   d <~ lift (preview_to_dict preview) ;;
                   lift (py_setitem obj name (PDict d))
                 else
                   v <~ lift (py_get value_desc "description" (PStr "[Object]")) ;;
                   lift (py_setitem obj name v)
           | _, _ =>
               has_description <~ lift (py_in "description" value_desc) ;;
               if has_description : bool then
                 v <~ lift (py_getitem value_desc "description") ;;
                 lift (py_setitem obj name v)
               else
                 ty <~ lift (py_get value_desc "type" PNone) ;;
                 if is_str "undefined" ty
                 then lift (py_setitem obj name (PStr "undefined"))
                 else ret obj
           end) ;;
      properties_loop recurse rest obj'
  end.

(** The [try] block of [get_object_properties]. *)
Definition get_object_properties_try (recurse : option (pyval -> M pyval))
    (object_id : pyval) : M pyval :=
  result <~ wait_for (send_command sched "Runtime.getProperties"
                        (Some (getProperties_params object_id))
                        5000 (Some 2000)) ;;
  has_result <~ lift (py_in "result" result) ;;
  if negb has_result then ret (PStr "[Object]")
  else
    props <~ lift (py_getitem result "result") ;;
    items <~ lift (py_iter props) ;;
    obj <~ properties_loop recurse items [] ;;
    ret (PDict obj).

(** [CDPConsole.get_object_properties]; the default [max_depth] is 2. *)
Fixpoint get_object_properties (max_depth : nat) (object_id : pyval)
  : M pyval :=
  try_except
    (get_object_properties_try
       (match max_depth with
        | O => None
        | S d => Some (get_object_properties d)
        end)
       object_id)
    (ret (PStr "[Object: timeout]"))
    (fun e => ret (PStr ("[Object: " +:+ str_exn e +:+ "]"))).

(** [class_name and class_name not in ("Object", "Array")] *)
Definition decorates (class_name : pyval) : bool :=
  py_truthy class_name
  && negb (is_str "Object" class_name || is_str "Array" class_name).

Definition decorated (class_name : pyval) (formatted : string) : pyval :=
  if decorates class_name
  then PStr ("[" +:+ py_str class_name +:+ "]" +:+ NL +:+ formatted)
  else PStr formatted.

(** [CDPConsole.format_arg], returning [(formatted, is_complex)]. *)
Definition format_arg (arg : pyval) : M (pyval * bool) :=
  arg_type <~ lift (py_get arg "type" (PStr EmptyString)) ;;
  has_value <~ lift (py_in "value" arg) ;;
  if has_value : bool then
    val <~ lift (py_getitem arg "value") ;;
    if is_container val
    then ret (PStr (json_dumps val), true)
    else ret (PStr (py_str val), false)
  else if is_str "object" arg_type then
    has_preview <~ lift (py_in "preview" arg) ;;
    if has_preview : bool then
      preview <~ lift (py_getitem arg "preview") ;;
      obj <~ lift (preview_to_dict preview) ;;
      class_name <~ lift (py_get arg "className" (PStr EmptyString)) ;;
      ret (decorated class_name (json_dumps (PDict obj)), true)
    else
      has_id <~ lift (py_in "objectId" arg) ;;
      if has_id : bool then
        object_id <~ lift (py_getitem arg "objectId") ;;
        obj <~ get_object_properties 2 object_id ;;
        if is_dict obj then
          class_name <~ lift (py_get arg "className" (PStr EmptyString)) ;;
          ret (decorated class_name (json_dumps obj), true)
        else ret (PStr (py_str obj), false)
      else
        d <~ lift (py_get arg "description" (PStr "[Object]")) ;;
        ret (d, false)
  else
    has_description <~ lift (py_in "description" arg) ;;
    if has_description : bool then
      d <~ lift (py_getitem arg "description") ;;
      ret (PStr (py_str d), false)
    else if is_str "undefined" arg_type then ret (PStr "undefined", false)
    else if is_str "null" arg_type then ret (PStr "null", false)
    else ret (PStr (py_str arg), false).

(** The [for arg in args] loop of [handle_message]. *)
Fixpoint format_args (args simple_parts complex_parts : list pyval)
  : M (list pyval * list pyval) :=
  match args with
  | [] => ret (simple_parts, complex_parts)
  | arg :: rest =>
      r <~ format_arg arg ;;
      let '(formatted, is_complex) := r in
      if is_complex : bool
      then format_args rest simple_parts (complex_parts ++ [formatted])
      else format_args rest (simple_parts ++ [formatted]) complex_parts
  end.

(** ["\n".join("    " + line for line in obj_str.split("\n"))] *)
Definition indent_lines (s : string) : string :=
  join NL (map (fun line => "    " +:+ line) (split_lines s)).

Definition indented (obj_str : pyval) : result string :=
  match obj_str with
  | PStr s => Ok (indent_lines s)
  | _ => Raise (AttributeError (type_name obj_str) "split")
  end.

Fixpoint print_complex (complex_parts : list pyval) : M unit :=
  match complex_parts with
  | [] => ret tt
  | obj_str :: rest =>
      s <~ lift (indented obj_str) ;;
      print s ;;;
      print_complex rest
  end.

(** [CDPConsole.handle_message] *)
Definition handle_message (msg : pyval) : M unit :=
  consumed <~ handle_reply msg ;;
  if consumed : bool then ret tt
  else
    method <~ lift (py_get msg "method" (PStr EmptyString)) ;;
    if is_str "Runtime.consoleAPICalled" method then
      params <~ lift (py_get msg "params" (PDict [])) ;;
      log_type <~ lift (py_get params "type" (PStr "log")) ;;
      args <~ lift (py_get params "args" (PList [])) ;;
      items <~ lift (py_iter args) ;;
      parts <~ format_args items [] [] ;;
      let '(simple_parts, complex_parts) := parts in
      if py_truthy (PList simple_parts) || py_truthy (PList complex_parts) then
        main_line <~ lift (if py_truthy (PList simple_parts)
                           then py_join " " simple_parts
                           else Ok EmptyString) ;;
        print ("[console." +:+ py_str log_type +:+ "] " +:+ main_line) ;;;
        print_complex complex_parts
      else ret tt
    else if is_str "Runtime.exceptionThrown" method then
      params <~ lift (py_get msg "params" (PDict [])) ;;
      details <~ lift (py_get params "exceptionDetails" (PDict [])) ;;
      exc <~ lift (py_get details "exception" (PDict [])) ;;
      text <~ lift (py_get details "text" (PStr "Unknown error")) ;;
      desc <~ lift (py_get exc "description" text) ;;
      print ("[console.error] EXCEPTION: " +:+ py_str desc)
    else if is_str "Log.entryAdded" method then
      params <~ lift (py_get msg "params" (PDict [])) ;;
      entry <~ lift (py_get params "entry" (PDict [])) ;;
      level <~ lift (py_get entry "level" (PStr "info")) ;;
      text <~ lift (py_get entry "text" (PStr EmptyString)) ;;
      if py_truthy text
      then print ("[" +:+ py_str level +:+ "] " +:+ py_str text)
      else ret tt
    else ret tt.

End Interp.

(** ** The read loop *)

(** What reaches the session while [run] iterates: a text frame from the
    channel, or a SIGTERM/SIGINT, whose handler starts a [close()] task. *)
Inductive arrival :=
| Frame (message : string)
| Signal.

Inductive loop_end :=
| Exhausted
| Break
| Escaped (e : exn).

Section Session.

Variable py_repr : pyval -> string.
Variable str_exn : exn -> string.
(** [json.loads] *)
Variable json_loads : string -> result pyval.
(** How many [close()] tasks run while [run] is suspended inside
    [handle_message] on a given future.  No frame is handled during that
    time: the next one is only taken when [handle_message] has returned. *)
Variable signals : nat -> nat.

Definition run_schedule : schedule :=
  fun a => replicate (signals a) EnvClose.

(** The body of the [async for] in [run]. *)
Fixpoint run_loop (arrivals : list arrival) (st : CDPConsole)
  : CDPConsole * loop_end :=
  match arrivals with
  | [] => (st, Exhausted)
  | Signal :: rest => run_loop rest (close st)
  | Frame message :: rest =>
      if negb (running st) then (st, Break)
      else
        match (msg <~ lift (json_loads message) ;;
               handle_message py_repr str_exn run_schedule msg) st with
        | (st', Ok _) => run_loop rest st'
        | (st', Raise (JSONDecodeError _)) => run_loop rest st'
        | (st', Raise e) =>
            if is_Exception e
            then run_loop rest
                   (fst (print ("[parse-error] " +:+ str_exn e) st'))
            else (st', Escaped e)
        end
  end.

(** [CDPConsole.run]; [connection_closed] tells whether the iteration
    over the channel ends by raising [ConnectionClosed]. *)
Definition run (arrivals : list arrival) (connection_closed : bool)
  : M unit :=
  fun st =>
    match run_loop arrivals st with
    | (st', Exhausted) =>
        if connection_closed
        then print "[cdp-console] Connection closed" st'
        else (st', Ok tt)
    | (st', Break) => (st', Ok tt)
    | (st', Escaped e) => (st', Raise e)
    end.

End Session.

(** ** The program *)

(** How the process ends: [sys.exit(status)] (0 when [main] returns), or
    an exception nobody caught. *)
Inductive outcome :=
| Exit (status : Z)
| Uncaught (e : exn).

Section Program.

Variable py_repr : pyval -> string.
Variable str_exn : exn -> string.
Variable json_loads : string -> result pyval.
Variable signals : nat -> nat.

(** [main]; [argv] is [sys.argv], [dial] the outcome of opening the
    connection, [arrivals] what reaches the session while it runs.
    Returns the lines printed and how the process ends. *)
Definition main (argv : list string) (dial : result unit)
    (arrivals : list arrival) (connection_closed : bool)
  : list string * outcome :=
  if (length argv <? 2)%nat
  then (["Usage: cdp-console.py <websocket-url>"], Exit 1)
  else
    match (connect dial ;;;
           run py_repr str_exn json_loads signals arrivals connection_closed)
            init with
    | (st, Ok _) => (stdout st, Exit 0)
    | (st, Raise e) =>
        if is_Exception e
        then (stdout st ++ ["[cdp-console] Error: " +:+ str_exn e], Exit 1)
        else (stdout st, Uncaught e)
    end.

End Program.

(** ** A concrete runtime

    The texts CPython 3.12 produces, for running the model on examples;
    the theorems hold for every [py_repr] and [str_exn].  The text of
    [ConnectionClosed] is the one of a channel closed by [close()].  Bytes above 127
    are taken to belong to printable characters. *)

Definition squote : ascii := "039"%char.

Definition repr_char (quote c : ascii) : string :=
  let n := nat_of_ascii c in
  if Ascii.eqb c "\" then "\\"
  else if Ascii.eqb c quote then String "\" (String c EmptyString)
  else if Nat.eqb n 10 then "\n"
  else if Nat.eqb n 13 then "\r"
  else if Nat.eqb n 9 then "\t"
  else if Nat.ltb n 32 || Nat.eqb n 127 then
    "\x" +:+ String (hex_digit (n / 16)) (String (hex_digit (n mod 16)) EmptyString)
  else String c EmptyString.

Fixpoint repr_chars (quote : ascii) (s : string) : string :=
  match s with
  | EmptyString => EmptyString
  | String c s' => repr_char quote c +:+ repr_chars quote s'
  end.

Definition repr_str (s : string) : string :=
  let quote :=
    if contains (String squote EmptyString) s
       && negb (contains (String dquote EmptyString) s)
    then dquote else squote in
  String quote (repr_chars quote s +:+ String quote EmptyString).

Definition repr_key (k : hkey) : string :=
  match k with
  | HNone => "None"
  | HBool true => "True"
  | HBool false => "False"
  | HInt n => pretty n
  | HStr s => repr_str s
  end.

Fixpoint cpython_repr (v : pyval) : string :=
  match v with
  | PNone => "None"
  | PBool true => "True"
  | PBool false => "False"
  | PInt n => pretty n
  | PStr s => repr_str s
  | PList l => "[" +:+ join ", " (map cpython_repr l) +:+ "]"
  | PDict d =>
      "{" +:+ join ", " (map (fun kv => repr_key (fst kv) +:+ ": "
                                        +:+ cpython_repr (snd kv)) d)
      +:+ "}"
  end.

Definition quoted (s : string) : string :=
  String squote (s +:+ String squote EmptyString).

Definition cpython_str_exn (e : exn) : string :=
  match e with
  | TimeoutError | CancelledError _ => EmptyString
  | JSONDecodeError what | OtherError what => what
  | ConnectionClosed => "sent 1000 (OK); then received 1000 (OK)"
  | InvalidStateError => "invalid state"
  | AttributeError ty attr =>
      quoted ty +:+ " object has no attribute " +:+ quoted attr
  | TypeError (NotIterable ty) => quoted ty +:+ " object is not iterable"
  | TypeError (NotContainer ty) =>
      "argument of type " +:+ quoted ty +:+ " is not iterable"
  | TypeError (Unhashable ty) => "unhashable type: " +:+ quoted ty
  | TypeError (BadIndex ty) =>
      if String.eqb ty "list"
      then "list indices must be integers or slices, not str"
      else "string indices must be integers, not 'str'"
  | TypeError (NotSubscriptable ty) =>
      quoted ty +:+ " object is not subscriptable"
  | TypeError (JoinItem i ty) =>
      "sequence item " +:+ pretty i +:+ ": expected str instance, "
      +:+ ty +:+ " found"
  | KeyError k => repr_str k
  end.

(** ** Protocol messages used in the statements *)

Definition obj (fields : list (string * pyval)) : pyval :=
  PDict (map (fun kv => (HStr (fst kv), snd kv)) fields).

(** A [Runtime.consoleAPICalled] event. *)
Definition console_call (log_type : string) (args : list pyval) : pyval :=
  obj [("method", PStr "Runtime.consoleAPICalled");
       ("params", obj [("type", PStr log_type); ("args", PList args)])].

(** An argument carrying an inline value. *)
Definition inline (type : string) (value : pyval) : pyval :=
  obj [("type", PStr type); ("value", value)].

(** An argument that is an object handle without value or preview. *)
Definition handle (object_id : string) : pyval :=
  obj [("type", PStr "object"); ("objectId", PStr object_id)].

(** A [Runtime.exceptionThrown] event. *)
Definition exception_thrown (details : pyval) : pyval :=
  obj [("method", PStr "Runtime.exceptionThrown");
       ("params", obj [("exceptionDetails", details)])].

(** A reply frame. *)
Definition reply (id : Z) (result : pyval) : pyval :=
  obj [("id", PInt id); ("result", result)].

(** * Vocabulary of the statements

    Predicates on results, states and schedules, the well-formedness of
    protocol values, and the sample session the examples run on. *)

(** [r] raises nothing but script errors. *)
Definition exc_only {A} (r : result A) : Prop :=
  ∀ e, r = Raise e → script_error e = true.

(** The session has a channel and it has not been closed. *)
Definition is_open (st : CDPConsole) : bool :=
  match ws st with
  | Some ch => negb (closed ch)
  | None => false
  end.

(** [json.loads] is a plain function: whatever it raises is an
    [Exception]. *)
Definition loads_plain (json_loads : string → result pyval) : Prop :=
  ∀ message e, json_loads message = Raise e → is_Exception e = true.

(** [safe R m]: running [m] relates the states by [R] and raises nothing
    but script errors.  [total R m]: moreover [m] returns a value. *)
Definition safe {A} (R : relation CDPConsole) (m : M A) : Prop :=
  ∀ st, R st (m st).1 ∧ ∀ e, (m st).2 = Raise e → script_error e = true.

Definition total {A} (R : relation CDPConsole) (m : M A) : Prop :=
  ∀ st, R st (m st).1 ∧ ∃ v, (m st).2 = Ok v.

(** [resolves h h']: the same futures, and a future that differs went from
    pending to holding a result. *)
Definition resolves (h h' : list future) : Prop :=
  length h' = length h
  ∧ ∀ a, h' !! a = h !! a
         ∨ (h !! a = Some FPending ∧ ∃ v, h' !! a = Some (FResult v)).

(** A future that is resolved in [st] is the same in [st']. *)
Definition frozen (st st' : CDPConsole) : Prop :=
  ∀ a s, futures st !! a = Some s → s ≠ FPending → futures st' !! a = Some s.

(** The id a message carries, the messages written to the channel, and
    their ids in the order of writing. *)
Definition request_id (msg : pyval) : Z :=
  match py_getitem msg "id" with
  | Ok (PInt n) => n
  | _ => 0
  end.

Definition chan_sent (st : CDPConsole) : list pyval :=
  match ws st with
  | Some ch => sent ch
  | None => []
  end.

Definition sent_ids (st : CDPConsole) : list Z := map request_id (chan_sent st).

(** The ids sent so far are [1..n], the counter is at least [n], and equal
    to [n] as long as the channel is open. *)
Definition ids_upto (n : Z) (st : CDPConsole) : Prop :=
  sent_ids st = seqZ 1 n
  ∧ (0 ≤ n ≤ msg_id st)%Z
  ∧ (is_open st = true → n = msg_id st).

(** From [st] to [st'] the ids sent stay an initial segment of 1, 2, ... *)
Definition ids_grow (st st' : CDPConsole) : Prop :=
  ∀ n, ids_upto n st → ∃ n', (n ≤ n')%Z ∧ ids_upto n' st'.

(** Nothing was printed between [st] and [st']. *)
Definition same_stdout (st st' : CDPConsole) : Prop := stdout st' = stdout st.

(** The session right after a successful [connect]. *)
Definition connected : CDPConsole := (connect (Ok tt) init).1.

(** A request that is waiting for its reply: the state [send_command] is
    suspended in, after the handshake. *)
Definition awaiting_reply : CDPConsole :=
  (send_command_request "Runtime.getProperties" None connected).1.

(** The spec's teardown rule: closing the session cancels every request
    that is still pending. *)
Definition teardown_cancels (st : CDPConsole) : Prop :=
  ∀ id a, pending st !! id = Some a → futures st !! a = Some FPending →
          futures (close st) !! a = Some FCancelled.

(** [isinstance(v, str)] *)
Definition is_pstr (v : pyval) : bool :=
  match v with
  | PStr _ => true
  | _ => false
  end.

(** A printable node: a string or a mapping. *)
Definition is_node (v : pyval) : bool := is_pstr v || is_dict v.

Definition absent_or_str (o : option pyval) : bool :=
  match o with
  | None => true
  | Some v => is_pstr v
  end.

(** Well-formed argument descriptors, after the protocol's [RemoteObject]:
    a JSON object whose [description], when present, is a string and whose
    [preview], when present, is an object whose [properties], when present,
    is a list of objects with string names. *)
Definition wf_property_preview (p : pyval) : bool :=
  match p with
  | PDict d => absent_or_str (dict_get d (HStr "name"))
  | _ => false
  end.

Definition wf_preview (preview : pyval) : bool :=
  match preview with
  | PDict d =>
      match dict_get d (HStr "properties") with
      | None => true
      | Some (PList ps) => forallb wf_property_preview ps
      | Some _ => false
      end
  | _ => false
  end.

Definition wf_descriptor (arg : pyval) : bool :=
  match arg with
  | PDict d =>
      absent_or_str (dict_get d (HStr "description"))
      && match dict_get d (HStr "preview") with
         | None => true
         | Some preview => wf_preview preview
         end
  | _ => false
  end.

(** The relation that asks nothing of the states. *)
Definition any_state : relation CDPConsole := fun _ _ => True.

(** Nothing resolves the fetch of [object_id] while the caller is
    suspended on it. *)
Definition unanswered (sched : schedule) (object_id : pyval) (st : CDPConsole)
  : Prop :=
  let a := length (futures st) in
  futures (interleave (sched a)
             (send_command_request "Runtime.getProperties"
                (Some (getProperties_params object_id)) st).1) !! a
  = Some FPending.

(** What [handle_message] does with the formatted parts of a console call. *)
Definition emit_console (py_repr : pyval → string) (log_type : pyval)
    (parts : list pyval * list pyval) : M unit :=
  let '(simple_parts, complex_parts) := parts in
  if py_truthy (PList simple_parts) || py_truthy (PList complex_parts) then
    main_line <~ lift (if py_truthy (PList simple_parts)
                       then py_join " " simple_parts
                       else Ok EmptyString) ;;
    print ("[console." +:+ py_str py_repr log_type +:+ "] " +:+ main_line) ;;;
    print_complex complex_parts
  else ret tt.

(** The message of an exception event, in the spec's words: the exception
    object's description when present, otherwise the event's raw text when
    present, otherwise ["Unknown error"]. *)
Definition exception_message (description text : option pyval) : pyval :=
  match description, text with
  | Some d, _ => d
  | None, Some t => t
  | None, None => PStr "Unknown error"
  end.

(** The exception object of the event's details and its description. *)
Definition exception_description (details : list (hkey * pyval))
  : option pyval :=
  match dict_get details (HStr "exception") with
  | Some (PDict exc) => dict_get exc (HStr "description")
  | _ => None
  end.

(** The details carry no exception object, or one that is a JSON object. *)
Definition wf_exception_details (details : list (hkey * pyval)) : bool :=
  match dict_get details (HStr "exception") with
  | None | Some (PDict _) => true
  | Some _ => false
  end.

(** [m] prints nothing; [m] has printed nothing whenever it raises. *)
Definition quiet {A} (m : M A) : Prop := ∀ st, stdout (m st).1 = stdout st.

Definition raise_quiet {A} (m : M A) : Prop :=
  ∀ st e, (m st).2 = Raise e → stdout (m st).1 = stdout st.

(** A console call with a handle, the reply to the fetch it starts, and
    [json.loads] on the frames of the examples. *)
Definition sample_event : pyval := console_call "log" [handle "7"].
Definition sample_reply : pyval := reply 4 (obj [("result", PList [])]).

Definition sample_loads (message : string) : result pyval :=
  if String.eqb message (json_dumps sample_event) then Ok sample_event
  else if String.eqb message (json_dumps sample_reply) then Ok sample_reply
  else if String.eqb message "[1]" then Ok (PList [PInt 1])
  else Raise (JSONDecodeError "Expecting value").

(** The one case in which [format_arg] asks the target: an object without
    inline value and without preview that carries a handle. *)
Definition needs_fetch (arg : pyval) : bool :=
  match arg with
  | PDict d =>
      bool_decide (dict_get d (HStr "value") = None)
      && is_str "object" (default (PStr EmptyString) (dict_get d (HStr "type")))
      && bool_decide (dict_get d (HStr "preview") = None)
      && bool_decide (is_Some (dict_get d (HStr "objectId")))
  | _ => false
  end.

(** Every pending id has been allocated, and so has its future. *)
Definition pending_bounded (st : CDPConsole) : Prop :=
  ∀ id a, pending st !! id = Some a →
          id ≤ msg_id st ∧ (a < length (futures st))%nat.

Definition keeps_pending_bounded (st st' : CDPConsole) : Prop :=
  pending_bounded st → pending_bounded st'.

(** The message [send_command] writes for a [Runtime.getProperties]. *)
Definition getProperties_command (id : Z) (object_id : pyval) : pyval :=
  PDict [(HStr "id", PInt id); (HStr "method", PStr "Runtime.getProperties");
         (HStr "params", getProperties_params object_id)].

(** The session after a request made in [st] got [msg] as its reply while
    the caller was waiting: the message is written, the id is used and no
    longer pending, the future holds the reply. *)
Definition answered (st : CDPConsole) (request msg : pyval) : CDPConsole :=
  {| ws := Some {| closed := false; sent := chan_sent st ++ [request] |};
     msg_id := msg_id st + 1;
     pending := delete (msg_id st + 1)
                  (<[msg_id st + 1 := length (futures st)]> (pending st));
     running := running st;
     futures := futures st ++ [FResult msg];
     stdout := stdout st |}.

(** The session after a request made in [st] timed out under the
    enclosing [wait_for]: the id stays in [pending], with a cancelled
    future. *)
Definition abandoned (st : CDPConsole) (request : pyval) : CDPConsole :=
  {| ws := Some {| closed := false; sent := chan_sent st ++ [request] |};
     msg_id := msg_id st + 1;
     pending := <[msg_id st + 1 := length (futures st)]> (pending st);
     running := running st;
     futures := futures st ++ [FCancelled];
     stdout := stdout st |}.

(** A property descriptor of a [Runtime.getProperties] reply that carries
    its value inline. *)
Definition inline_property (name : string) (value : pyval) : pyval :=
  obj [("name", PStr name); ("value", obj [("value", value)])].

(** A [Log.entryAdded] event. *)
Definition log_entry (entry : pyval) : pyval :=
  obj [("method", PStr "Log.entryAdded"); ("params", obj [("entry", entry)])].

(** No property of the preview is named [k]. *)
Definition not_named (k : string) (prop : pyval) : Prop :=
  ∀ name, py_get prop "name" (PStr "?") = Ok name → is_str k name = false.

(** The frame [d] is not the reply to a pending request: it has no id, or
    an id that is not pending. *)
Definition unmatched (d : list (hkey * pyval)) (st : CDPConsole) : Prop :=
  match dict_get d (HStr "id") with
  | None => True
  | Some id => pending_find id st = Ok None
  end.

(** The message [send_command] builds. *)
Definition request_message (id : Z) (method : string) (params : option pyval)
  : pyval :=
  match params with
  | Some p =>
      if py_truthy p
      then PDict [(HStr "id", PInt id); (HStr "method", PStr method);
                  (HStr "params", p)]
      else command id method
  | None => command id method
  end.

(** The session while a request made in [st] waits for its reply. *)
Definition requested (st : CDPConsole) (request : pyval) : CDPConsole :=
  {| ws := Some {| closed := false; sent := chan_sent st ++ [request] |};
     msg_id := msg_id st + 1;
     pending := <[msg_id st + 1 := length (futures st)]> (pending st);
     running := running st;
     futures := futures st ++ [FPending];
     stdout := stdout st |}.

(** Does [s] contain a line break? *)
Fixpoint has_newline (s : string) : bool :=
  match s with
  | EmptyString => false
  | String c s' => Ascii.eqb c nl || has_newline s'
  end.

(** The texts of the scalar values among [values], and the printed
    blocks of the composite ones, both in the order of [values]. *)
Definition scalar_texts (py_repr : pyval → string) (values : list pyval)
  : list string :=
  map (py_str py_repr) (filter (fun v => is_container v = false) values).

Definition composite_blocks (values : list pyval) : list string :=
  map (fun v => indent_lines (json_dumps v))
    (filter (fun v => is_container v = true) values).

(** A property of a reply that is an object known by its handle only. *)
Definition handle_property (name : string) (object_id : pyval) : pyval :=
  obj [("name", PStr name);
       ("value", obj [("type", PStr "object"); ("objectId", object_id)])].

(** A frame of 2000 opening brackets, and [json.loads] on it: the
    decoder nests one call per bracket and gives up with [RecursionError],
    an [Exception] that is not a [JSONDecodeError]. *)
Fixpoint brackets (n : nat) : string :=
  match n with
  | O => EmptyString
  | S n' => String "[" (brackets n')
  end.

Definition deep_frame : string := brackets 2000.

Definition recursion_error : exn :=
  OtherError "maximum recursion depth exceeded".

Definition limited_loads (message : string) : result pyval :=
  if String.eqb message deep_frame then Raise recursion_error
  else sample_loads message.

(** The spec's rule for frames that fail to parse: whenever [json.loads]
    fails on the frame, the frame is dropped with no output and no change
    of state. *)
Definition parse_failure_dropped (json_loads : string → result pyval)
    (message : string) (st : CDPConsole) : Prop :=
  (∃ e, json_loads message = Raise e) →
  run_loop cpython_repr cpython_str_exn json_loads (fun _ => O)
    [Frame message] st = (st, Exhausted).

(** * Reasoning tools *)

(** ** The builtin operations on examples *)

Example dumps_nested :
  json_dumps (PDict [(HStr "a", PInt 1); (HStr "b", PList [PStr "x"; PNone])])
  = "{" +:+ NL +:+ "  " +:+ json_quote "a" +:+ ": 1," +:+ NL
    +:+ "  " +:+ json_quote "b" +:+ ": [" +:+ NL
    +:+ "    " +:+ json_quote "x" +:+ "," +:+ NL
    +:+ "    null" +:+ NL +:+ "  ]" +:+ NL +:+ "}".
Proof. reflexivity. Qed.

Example dumps_negative : json_dumps (PInt (-12)) = "-12".
Proof. reflexivity. Qed.

Example split_lines_ex :
  split_lines ("a" +:+ NL +:+ NL +:+ "b" +:+ NL) = ["a"; EmptyString; "b"; EmptyString].
Proof. reflexivity. Qed.

Example repr_ex :
  cpython_repr (obj [("type", PStr "symbol"); ("n", PList [PInt 1; PNone])])
  = "{'type': 'symbol', 'n': [1, None]}".
Proof. reflexivity. Qed.

(** ** The builtin operations raise nothing but plain errors *)

Lemma exc_only_Ok {A} (x : A) : exc_only (Ok x).
Proof. intros e; discriminate. Qed.

Lemma exc_only_rbind {A B} (r : result A) (k : A → result B) :
  exc_only r → (∀ x, exc_only (k x)) → exc_only (rbind r k).
Proof.
  intros Hr Hk e. destruct r as [x|e']; simpl.
  - apply Hk.
  - intros [= <-]. by apply Hr.
Qed.

Ltac exc_cases :=
  let e := fresh "e" in
  intros e; simpl; repeat case_match; intros [= <-]; reflexivity.

Lemma exc_only_to_hkey v : exc_only (to_hkey v).
Proof. destruct v; exc_cases. Qed.

Lemma exc_only_py_get v k d : exc_only (py_get v k d).
Proof. destruct v; exc_cases. Qed.

Lemma exc_only_py_in k v : exc_only (py_in k v).
Proof. destruct v; exc_cases. Qed.

Lemma exc_only_py_getitem v k : exc_only (py_getitem v k).
Proof. destruct v; exc_cases. Qed.

Lemma exc_only_py_iter v : exc_only (py_iter v).
Proof. destruct v; exc_cases. Qed.

Lemma exc_only_py_setitem d name v : exc_only (py_setitem d name v).
Proof.
  apply exc_only_rbind; [apply exc_only_to_hkey | intros; apply exc_only_Ok].
Qed.

Lemma exc_only_strs_from l : ∀ i, exc_only (strs_from i l).
Proof.
  induction l as [|v l IH]; intros i; [apply exc_only_Ok|].
  destruct v; try exc_cases.
  simpl. apply exc_only_rbind; [apply IH | intros; apply exc_only_Ok].
Qed.

Lemma exc_only_py_join sep l : exc_only (py_join sep l).
Proof.
  apply exc_only_rbind; [apply exc_only_strs_from | intros; apply exc_only_Ok].
Qed.

Lemma exc_only_indented v : exc_only (indented v).
Proof. destruct v; exc_cases. Qed.

Lemma exc_only_pending_find key st : exc_only (pending_find key st).
Proof.
  apply exc_only_rbind; [apply exc_only_to_hkey | intros; apply exc_only_Ok].
Qed.

Lemma exc_only_preview_props items : ∀ obj, exc_only (preview_props items obj).
Proof.
  induction items as [|prop rest IH]; intros obj; [apply exc_only_Ok|].
  simpl.
  repeat (apply exc_only_rbind;
          [first [apply exc_only_py_get | apply exc_only_py_setitem] | intros ?]).
  apply IH.
Qed.

Lemma exc_only_preview_to_dict preview : exc_only (preview_to_dict preview).
Proof.
  unfold preview_to_dict.
  apply exc_only_rbind; [apply exc_only_py_get | intros ?].
  apply exc_only_rbind; [apply exc_only_py_iter | intros ?].
  apply exc_only_rbind; [apply exc_only_preview_props | intros ?].
  apply exc_only_rbind; [apply exc_only_py_get | intros ?].
  case_match; apply exc_only_Ok.
Qed.

Create HintDb pyexc.
#[export] Hint Resolve exc_only_Ok exc_only_to_hkey exc_only_py_get
  exc_only_py_in exc_only_py_getitem exc_only_py_iter exc_only_py_setitem
  exc_only_py_join exc_only_indented exc_only_pending_find
  exc_only_preview_to_dict : pyexc.

(** ** How the futures store may change *)

Lemma resolves_refl h : resolves h h.
Proof. split; [done | by left]. Qed.

Lemma resolves_trans h1 h2 h3 :
  resolves h1 h2 → resolves h2 h3 → resolves h1 h3.
Proof.
  intros [L12 H12] [L23 H23]. split; [congruence|].
  intros a. destruct (H12 a) as [E12|[P12 [v E12]]],
    (H23 a) as [E23|[P23 [w E23]]].
  - left; congruence.
  - right; split; [congruence | eauto].
  - right; split; [done | exists v; congruence].
  - congruence.
Qed.

Lemma set_result_futures a v st :
  resolves (futures st) (futures (set_result a v st).1).
Proof.
  unfold set_result.
  destruct (futures st !! a) as [[| |]|] eqn:E; simpl; try apply resolves_refl.
  split; [by rewrite length_insert|].
  intros b. destruct (decide (a = b)) as [<-|Hne].
  - right. split; [done|]. exists v.
    apply list_lookup_insert_eq. by eapply lookup_lt_Some.
  - left. by apply list_lookup_insert_ne.
Qed.

(** What [handle_reply] leaves alone. *)
Lemma handle_reply_frame msg st :
  let st' := (handle_reply msg st).1 in
  ws st' = ws st ∧ msg_id st' = msg_id st ∧ running st' = running st
  ∧ stdout st' = stdout st ∧ resolves (futures st) (futures st').
Proof.
  unfold handle_reply, bind, lift, get, ret, modify; simpl.
  destruct (py_in "id" msg) as [[]|]; simpl;
    try (repeat split; apply resolves_refl).
  destruct (py_getitem msg "id") as [id|]; simpl;
    try (repeat split; apply resolves_refl).
  destruct (pending_find id st) as [[[n a]|]|]; simpl;
    try (repeat split; apply resolves_refl).
  pose proof (set_result_futures a msg
                (set_pending (delete n (pending st)) st)) as Hres.
  unfold set_result in *; simpl in *.
  destruct (futures st !! a) as [[| |]|]; simpl in *;
    repeat split; first [done | apply Hres | apply resolves_refl].
Qed.

Lemma handle_reply_exception msg st e :
  (handle_reply msg st).2 = Raise e → script_error e = true.
Proof.
  unfold handle_reply, bind, lift, get, ret, modify; simpl.
  destruct (py_in "id" msg) as [[]|e1] eqn:E1; simpl; try discriminate.
  - destruct (py_getitem msg "id") as [id|e2] eqn:E2; simpl.
    + destruct (pending_find id st) as [[[n a]|]|e3] eqn:E3; simpl;
        try discriminate.
      * unfold set_result; simpl.
        destruct (futures st !! a) as [[| |]|]; simpl;
          first [discriminate | by intros [= <-]].
      * intros [= <-]. by eapply exc_only_pending_find.
    + intros [= <-]. by eapply exc_only_py_getitem.
  - intros [= <-]. by eapply exc_only_py_in.
Qed.

Lemma close_frame st :
  msg_id (close st) = msg_id st ∧ pending (close st) = pending st
  ∧ futures (close st) = futures st ∧ stdout (close st) = stdout st
  ∧ running (close st) = false.
Proof. unfold close. simpl. by destruct (ws st). Qed.

Lemma env_step_frame st e :
  msg_id (env_step st e) = msg_id st
  ∧ stdout (env_step st e) = stdout st
  ∧ resolves (futures st) (futures (env_step st e)).
Proof.
  destruct e as [|msg]; simpl.
  - destruct (close_frame st) as (-> & _ & -> & -> & _).
    repeat split; apply resolves_refl.
  - destruct (handle_reply_frame msg st) as (_ & -> & _ & -> & H). done.
Qed.

Lemma interleave_frame es : ∀ st,
  msg_id (interleave es st) = msg_id st
  ∧ stdout (interleave es st) = stdout st
  ∧ resolves (futures st) (futures (interleave es st)).
Proof.
  unfold interleave.
  induction es as [|e es IH]; intros st; simpl.
  - repeat split; apply resolves_refl.
  - destruct (IH (env_step st e)) as (E1 & E2 & H).
    destruct (env_step_frame st e) as (E1' & E2' & H').
    split; [congruence|]. split; [congruence|].
    by eapply resolves_trans.
Qed.

(** ** What one request does *)

Lemma send_command_request_spec method params st :
  let r := send_command_request method params st in
  msg_id r.1 = msg_id st + 1
  ∧ futures r.1 = (futures st ++ [FPending])%list
  ∧ pending r.1 = <[msg_id st + 1 := length (futures st)]> (pending st)
  ∧ running r.1 = running st
  ∧ stdout r.1 = stdout st
  ∧ (if is_open st
     then r.2 = Ok (msg_id st + 1, length (futures st))
     else ∃ e, r.2 = Raise e ∧ script_error e = true ∧ ws r.1 = ws st).
Proof.
  unfold send_command_request, bind, modify, get, ret, ws_send, is_open; simpl.
  destruct (ws st) as [[[] snt]|] eqn:Ews; simpl; repeat split; eauto.
Qed.

Lemma await_future_spec sched a timeout deadline st :
  futures st !! a = Some FPending →
  let r := await_future sched a timeout deadline st in
  msg_id r.1 = msg_id st ∧ stdout r.1 = stdout st
  ∧ ((∃ v, r.2 = Ok v ∧ futures r.1 !! a = Some (FResult v))
     ∨ (r.2 = Raise (if expires_first deadline timeout
                     then CancelledError true else TimeoutError)
        ∧ futures (interleave (sched a) st) !! a = Some FPending
        ∧ futures r.1 !! a = Some FCancelled)).
Proof.
  intros Ha. unfold await_future.
  destruct (interleave_frame (sched a) st) as (Em & Eo & [Hlen Hres]).
  destruct (Hres a) as [E|[_ [v E]]]; rewrite E; [rewrite Ha|]; simpl.
  - repeat split; [done..|]. right. split; [done|]. split; [congruence|].
    apply list_lookup_insert_eq. rewrite Hlen. by eapply lookup_lt_Some.
  - repeat split; [done..|]. left. eauto.
Qed.

Lemma fetch_exception sched method params st e :
  (wait_for (send_command sched method params 5000 (Some 2000)) st).2 = Raise e →
  script_error e = true.
Proof.
  unfold wait_for, send_command, bind.
  pose proof (send_command_request_spec method params st) as Hreq.
  destruct (send_command_request method params st) as [st1 r1]; simpl in Hreq.
  destruct Hreq as (_ & Hfut & _ & _ & _ & Hr).
  destruct (is_open st).
  - subst r1.
    assert (Ha : futures st1 !! length (futures st) = Some FPending).
    { rewrite Hfut. by rewrite lookup_app_r, Nat.sub_diag. }
    pose proof (await_future_spec sched _ 5000 (Some 2000) st1 Ha) as Haw.
    destruct (await_future sched (length (futures st)) 5000 (Some 2000) st1)
      as [st2 r2]; simpl in Haw.
    destruct Haw as (_ & _ & [(v & -> & _)|(-> & _)]); simpl.
    + discriminate.
    + by intros [= <-].
  - destruct Hr as (e1 & -> & He1 & _).
    destruct e1 as [|[]| | | | | | |]; simpl; try discriminate He1;
      by intros [= <-].
Qed.

Lemma script_error_is_Exception e : script_error e = true → is_Exception e = true.
Proof. by destruct e. Qed.

(** ** A small program logic *)

Section Logic.

Context (R : relation CDPConsole) `{!PreOrder R}.

Lemma total_safe {A} (m : M A) : total R m → safe R m.
Proof.
  intros H st. destruct (H st) as [HR [v Hv]].
  split; [done|]. intros e. rewrite Hv. discriminate.
Qed.

Lemma total_ret {A} (x : A) : total R (ret x).
Proof. intros st. split; [reflexivity | by exists x]. Qed.

Lemma safe_ret {A} (x : A) : safe R (ret x).
Proof. apply total_safe, total_ret. Qed.

Lemma safe_lift {A} (r : result A) : exc_only r → safe R (lift r).
Proof. intros Hr st. split; [reflexivity | apply Hr]. Qed.

Lemma safe_get : safe R get.
Proof. intros st. split; [reflexivity | discriminate]. Qed.

Lemma safe_bind {A B} (m : M A) (k : A → M B) :
  safe R m → (∀ x, safe R (k x)) → safe R (bind m k).
Proof.
  intros Hm Hk st. unfold bind.
  destruct (Hm st) as [HR He]. destruct (m st) as [st' [x|e]]; simpl in *.
  - destruct (Hk x st') as [HR' He']. split; [by etrans | done].
  - split; [done|]. intros e' [= <-]. by apply He.
Qed.

Lemma total_try_except {A} (m : M A) (x : A) (f : exn → A) :
  safe R m → total R (try_except m (ret x) (fun e => ret (f e))).
Proof.
  intros Hm st. unfold try_except, ret.
  destruct (Hm st) as [HR He]. destruct (m st) as [st' [v|e]]; simpl in *.
  - eauto.
  - specialize (He e eq_refl).
    destruct e; simpl in *; try discriminate; eauto.
Qed.

(** The correlator's steps respect [R]. *)
Hypothesis R_request : ∀ method params st,
  R st (send_command_request method params st).1.
Hypothesis R_await : ∀ sched a timeout deadline st,
  R st (await_future sched a timeout deadline st).1.
Hypothesis R_pop : ∀ id st, R st (set_pending (delete id (pending st)) st).

Lemma R_send_command sched method params timeout deadline st :
  R st (send_command sched method params timeout deadline st).1.
Proof.
  unfold send_command, bind.
  pose proof (R_request method params st) as H1.
  destruct (send_command_request method params st) as [st1 [[id a]|e]];
    simpl in *; [|done].
  pose proof (R_await sched a timeout deadline st1) as H2.
  destruct (await_future sched a timeout deadline st1) as [st2 [v|e]];
    simpl in *; [by etrans|].
  destruct e; simpl; try (by etrans).
  etrans; [done|]. etrans; [done|]. apply R_pop.
Qed.

Lemma safe_fetch sched method params :
  safe R (wait_for (send_command sched method params 5000 (Some 2000))).
Proof.
  intros st. split; [|apply fetch_exception].
  pose proof (R_send_command sched method params 5000 (Some 2000) st) as H.
  unfold wait_for.
  destruct (send_command sched method params 5000 (Some 2000) st)
    as [st' [v|[|[]| | | | | | |]]]; done.
Qed.

Ltac safe_step :=
  match goal with
  | |- safe _ (bind _ _) => apply safe_bind; [|intros ?]
  | |- safe _ (lift _) => apply safe_lift; auto with pyexc
  | |- safe _ (ret _) => apply safe_ret
  | |- safe _ get => apply safe_get
  | |- safe _ (wait_for _) => apply safe_fetch
  | |- safe _ (if ?b then _ else _) => destruct b
  | |- safe _ (match ?x with _ => _ end) => destruct x
  end.

Lemma safe_properties_loop recurse items :
  (∀ get_properties, recurse = Some get_properties →
     ∀ object_id, total R (get_properties object_id)) →
  ∀ obj, safe R (properties_loop recurse items obj).
Proof.
  intros Hrec.
  induction items as [|prop rest IH]; intros obj; simpl; [apply safe_ret|].
  do 4 safe_step; [..|apply IH].
  safe_step; repeat safe_step.
  apply total_safe. by eapply Hrec.
Qed.

Section Methods.

Variable py_repr : pyval → string.
Variable str_exn : exn → string.
Variable sched : schedule.

Lemma total_get_object_properties max_depth :
  ∀ object_id, total R (get_object_properties str_exn sched max_depth object_id).
Proof.
  induction max_depth as [|d IH]; intros object_id; simpl;
    apply total_try_except; unfold get_object_properties_try;
    repeat safe_step;
    (apply safe_properties_loop; intros g [= <-] || intros g [=]); done.
Qed.

Lemma safe_format_arg arg :
  safe R (format_arg py_repr str_exn sched arg).
Proof.
  unfold format_arg. repeat safe_step.
  apply total_safe, total_get_object_properties.
Qed.

Lemma safe_format_args args :
  ∀ simple_parts complex_parts,
    safe R (format_args py_repr str_exn sched args simple_parts complex_parts).
Proof.
  induction args as [|arg rest IH]; intros sp cp; simpl; [apply safe_ret|].
  safe_step; [apply safe_format_arg|].
  destruct x as [formatted []]; apply IH.
Qed.

Hypothesis R_reply : ∀ msg st, R st (handle_reply msg st).1.
Hypothesis R_print : ∀ s st, R st (print s st).1.

Lemma safe_handle_reply msg : safe R (handle_reply msg).
Proof. intros st. split; [apply R_reply | apply handle_reply_exception]. Qed.

Lemma safe_print s : safe R (print s).
Proof. intros st. split; [apply R_print | discriminate]. Qed.

Lemma safe_print_complex complex_parts : safe R (print_complex complex_parts).
Proof.
  induction complex_parts as [|v rest IH]; simpl; [apply safe_ret|].
  safe_step; [safe_step|]. safe_step; [apply safe_print | done].
Qed.

Lemma safe_handle_message msg :
  safe R (handle_message py_repr str_exn sched msg).
Proof.
  unfold handle_message.
  safe_step; [apply safe_handle_reply|].
  repeat first
    [ apply safe_format_args | apply safe_print | apply safe_print_complex
    | safe_step ].
  case_match; auto with pyexc.
Qed.

End Methods.

Hypothesis R_reply : ∀ msg st, R st (handle_reply msg st).1.
Hypothesis R_print : ∀ s st, R st (print s st).1.
Hypothesis R_close : ∀ st, R st (close st).

(** The read loop respects [R]; and no exception escapes it, [json.loads]
    being a plain function that raises nothing but [Exception]s. *)
Lemma run_loop_safe py_repr str_exn json_loads signals arrivals :
  ∀ st,
    let r := run_loop py_repr str_exn json_loads signals arrivals st in
    R st r.1
    ∧ (loads_plain json_loads → ∀ e, r.2 ≠ Escaped e).
Proof.
  assert (Hprint : ∀ s st st', R st st' → R st (print s st').1).
  { intros s st st' H. etrans; [exact H | apply R_print]. }
  induction arrivals as [|[message|] rest IH]; intros st; simpl.
  - split; [reflexivity | discriminate].
  - destruct (running st); simpl; [|split; [reflexivity | discriminate]].
    pose proof (safe_handle_message py_repr str_exn
                  (run_schedule signals) R_reply R_print) as Hh.
    assert (Hnext : ∀ s, R st s →
              R st (run_loop py_repr str_exn json_loads signals rest s).1
              ∧ (loads_plain json_loads →
                 ∀ e, (run_loop py_repr str_exn json_loads signals rest s).2
                      ≠ Escaped e)).
    { intros s Hs. destruct (IH s) as [HR' Hne]. split; [by etrans | done]. }
    unfold bind, lift.
    destruct (json_loads message) as [msg|e] eqn:Eload.
    + destruct (Hh msg st) as [HR He].
      destruct (handle_message py_repr str_exn (run_schedule signals) msg st)
        as [st' [u|e]]; simpl in HR, He |- *.
      * by apply Hnext.
      * specialize (He e eq_refl).
        destruct e; simpl in He |- *; try discriminate;
          apply Hnext; first [exact HR | by apply Hprint].
    + destruct e; simpl;
        first [ apply Hnext; first [reflexivity | by apply Hprint] | idtac ].
      split; [reflexivity|]. intros Hloads.
      by specialize (Hloads message _ Eload).
  - destruct (IH (close st)) as [HR Hne]. split; [|done].
    etrans; [apply R_close | done].
Qed.

End Logic.

(** ** Resolved futures stay as they are *)

#[export] Instance frozen_preorder : PreOrder frozen.
Proof.
  split.
  - by intros st a s.
  - intros st1 st2 st3 H12 H23 a s Ha Hs. eauto.
Qed.

Lemma resolves_frozen st st' :
  resolves (futures st) (futures st') → frozen st st'.
Proof.
  intros [_ H] a s Ha Hs. destruct (H a) as [E|[E _]]; congruence.
Qed.

Lemma frozen_same st st' : futures st' = futures st → frozen st st'.
Proof. intros E a s. by rewrite E. Qed.

Lemma frozen_request method params st :
  frozen st (send_command_request method params st).1.
Proof.
  destruct (send_command_request_spec method params st) as (_ & E & _).
  intros a s Ha _. rewrite E. by apply lookup_app_l_Some.
Qed.

Lemma frozen_await sched a timeout deadline st :
  frozen st (await_future sched a timeout deadline st).1.
Proof.
  unfold await_future.
  destruct (interleave_frame (sched a) st) as (_ & _ & Hres).
  apply resolves_frozen in Hres.
  set (st1 := interleave (sched a) st) in *.
  destruct (futures st1 !! a) as [[| |]|] eqn:E; simpl; try done;
    intros b s Hb Hs; specialize (Hres b s Hb Hs); simpl;
    (destruct (decide (a = b)) as [<-|Hne];
     [congruence | by rewrite list_lookup_insert_ne]).
Qed.

Lemma frozen_pop id st : frozen st (set_pending (delete id (pending st)) st).
Proof. by apply frozen_same. Qed.

Lemma frozen_reply msg st : frozen st (handle_reply msg st).1.
Proof. apply resolves_frozen. by destruct (handle_reply_frame msg st) as (_&_&_&_&H). Qed.

Lemma frozen_print s st : frozen st (print s st).1.
Proof. by apply frozen_same. Qed.

Lemma frozen_close st : frozen st (close st).
Proof. apply frozen_same. by destruct (close_frame st) as (_&_&->&_). Qed.

(** ** The ids written to the channel *)

#[export] Instance ids_grow_preorder : PreOrder ids_grow.
Proof.
  split.
  - intros st n Hn. exists n. split; [lia | done].
  - intros st1 st2 st3 H12 H23 n Hn.
    destruct (H12 n Hn) as (n2 & Hle2 & Hn2).
    destruct (H23 n2 Hn2) as (n3 & Hle3 & Hn3).
    exists n3. split; [lia | done].
Qed.










(** ** Nothing is printed before the reply branch and the formatting are
    done *)

#[export] Instance same_stdout_preorder : PreOrder same_stdout.
Proof.
  split; [done|]. intros st1 st2 st3 H12 H23. unfold same_stdout in *. congruence.
Qed.

Lemma same_stdout_request method params st :
  same_stdout st (send_command_request method params st).1.
Proof. by destruct (send_command_request_spec method params st) as (_&_&_&_&E&_). Qed.

Lemma same_stdout_await sched a timeout deadline st :
  same_stdout st (await_future sched a timeout deadline st).1.
Proof.
  unfold await_future, same_stdout.
  destruct (interleave_frame (sched a) st) as (_ & Eo & _).
  set (st1 := interleave (sched a) st) in *.
  by destruct (futures st1 !! a) as [[| |]|].
Qed.

Lemma same_stdout_pop id st :
  same_stdout st (set_pending (delete id (pending st)) st).
Proof. done. Qed.

Lemma same_stdout_reply msg st : same_stdout st (handle_reply msg st).1.
Proof. by destruct (handle_reply_frame msg st) as (_&_&_&E&_). Qed.

(** * The claims *)

(** ** Request ids *)




(** ** Resolution of requests *)

Lemma run_frozen py_repr str_exn json_loads signals arrivals connection_closed st :
  frozen st (run py_repr str_exn json_loads signals arrivals connection_closed st).1.
Proof.
  unfold run.
  destruct (run_loop_safe frozen frozen_request frozen_await frozen_pop
              frozen_reply frozen_print frozen_close
              py_repr str_exn json_loads signals arrivals st) as [HR _].
  destruct (run_loop py_repr str_exn json_loads signals arrivals st)
    as [st' []]; simpl in *; try done.
  destruct connection_closed; [|done].
  etrans; [exact HR | apply frozen_print].
Qed.

Lemma send_command_resolves sched method params timeout deadline st :
  is_open st = true →
  ∃ s, futures (send_command sched method params timeout deadline st).1
         !! length (futures st) = Some s
       ∧ s ≠ FPending.
Proof.
  intros Hopen. unfold send_command, bind.
  pose proof (send_command_request_spec method params st) as Hreq.
  destruct (send_command_request method params st) as [st1 r1]; simpl in Hreq.
  destruct Hreq as (_ & Hfut & _ & _ & _ & Hr). rewrite Hopen in Hr. subst r1.
  assert (Ha : futures st1 !! length (futures st) = Some FPending).
  { rewrite Hfut. by rewrite lookup_app_r, Nat.sub_diag. }
  pose proof (await_future_spec sched _ timeout deadline st1 Ha) as Haw.
  destruct (await_future sched (length (futures st)) timeout deadline st1)
    as [st2 r2]; simpl in Haw.
  destruct Haw as (_ & _ & [(v & -> & E)|(-> & _ & E)]); simpl.
  - by exists (FResult v).
  - exists FCancelled. by destruct (expires_first deadline timeout).
Qed.

(** Request 4 is pending, and still pending after [close]. *)
Lemma close_does_not_cancel : ¬ teardown_cancels awaiting_reply.
Proof.
  intros H. specialize (H 4 0%nat eq_refl eq_refl). discriminate H.
Qed.

(** C1 (as the code has it): a request that [send_command] writes to the
    open channel is resolved exactly once.  When [send_command] is done its
    future holds a reply or has been cancelled by a timeout, never zero
    resolutions; and that outcome is final, whatever the read loop handles
    afterwards.  There is no teardown cancellation: [close] leaves the
    pending map and every future as they are. *)
Theorem request_resolved_once
    py_repr str_exn json_loads signals arrivals connection_closed
    sched method params timeout deadline st :
  is_open st = true →
  let st1 := (send_command sched method params timeout deadline st).1 in
  (∃ s, futures st1 !! length (futures st) = Some s
        ∧ ((∃ reply, s = FResult reply) ∨ s = FCancelled)
        ∧ futures (run py_repr str_exn json_loads signals arrivals
                     connection_closed st1).1 !! length (futures st) = Some s)
  ∧ pending (close st1) = pending st1
  ∧ futures (close st1) = futures st1.
Proof.
  intros Hopen st1.
  destruct (send_command_resolves sched method params timeout deadline st Hopen)
    as (s & Hs & Hne).
  split.
  - exists s. split; [done|]. split.
    + destruct s; [done | eauto | eauto].
    + by apply run_frozen.
  - by destruct (close_frame st1) as (_ & -> & -> & _).
Qed.

Lemma request_resolved_once_witness :
  let st1 := (send_command (fun _ => [EnvClose]) "Runtime.getProperties" None
                5000 None connected).1 in
  futures st1 !! 0%nat = Some FCancelled
  ∧ pending (close st1) = pending st1
  ∧ futures (close st1) = futures st1.
Proof.
  destruct (request_resolved_once (fun _ => EmptyString) (fun _ => EmptyString)
              (fun _ => Raise (JSONDecodeError EmptyString)) (fun _ => O) [] false
              (fun _ => [EnvClose]) "Runtime.getProperties" None 5000 None
              connected eq_refl) as [_ H].
  split; [reflexivity | exact H].
Defined.

(** ** The materializer *)

#[export] Instance any_state_preorder : PreOrder any_state.
Proof. by split. Qed.

Lemma get_object_properties_returns str_exn sched max_depth object_id st :
  ∃ node, (get_object_properties str_exn sched max_depth object_id st).2 = Ok node.
Proof.
  by destruct (total_get_object_properties any_state
                 ltac:(done) ltac:(done) ltac:(done)
                 str_exn sched max_depth object_id st) as [_ H].
Qed.

Lemma properties_try_node sched recurse object_id st st' v :
  get_object_properties_try sched recurse object_id st = (st', Ok v) →
  is_node v = true.
Proof.
  unfold get_object_properties_try, bind, lift, ret.
  repeat case_match; intros [= <- <-]; reflexivity.
Qed.

Lemma get_object_properties_node str_exn sched max_depth object_id st st' v :
  get_object_properties str_exn sched max_depth object_id st = (st', Ok v) →
  is_node v = true.
Proof.
  destruct max_depth; simpl; unfold try_except, ret;
    (destruct (get_object_properties_try _ _ _ _) as [st1 [w|e]] eqn:E;
     [ intros [= <- <-]; by eapply properties_try_node
     | repeat case_match; intros [= <- <-]; reflexivity ]).
Qed.

Lemma await_future_counts sched a timeout deadline st :
  let r := await_future sched a timeout deadline st in
  msg_id r.1 = msg_id st ∧ length (futures r.1) = length (futures st).
Proof.
  unfold await_future.
  destruct (interleave_frame (sched a) st) as (Em & _ & [Hlen _]).
  set (st1 := interleave (sched a) st) in *.
  destruct (futures st1 !! a) as [[| |]|]; simpl;
    by rewrite ?length_insert.
Qed.

Lemma fetch_counts sched method params timeout deadline st :
  let r := wait_for (send_command sched method params timeout deadline) st in
  msg_id r.1 = msg_id st + 1
  ∧ length (futures r.1) = S (length (futures st)).
Proof.
  assert (H : let r := send_command sched method params timeout deadline st in
              msg_id r.1 = msg_id st + 1
              ∧ length (futures r.1) = S (length (futures st))).
  { unfold send_command, bind.
    pose proof (send_command_request_spec method params st) as Hreq.
    destruct (send_command_request method params st) as [st1 r1]; simpl in Hreq.
    destruct Hreq as (Em & Ef & _).
    assert (Hl : length (futures st1) = S (length (futures st))).
    { rewrite Ef, length_app. simpl. lia. }
    destruct r1 as [[id a]|e]; simpl; [|done].
    pose proof (await_future_counts sched a timeout deadline st1) as Haw.
    destruct (await_future sched a timeout deadline st1) as [st2 [v|e]];
      simpl in Haw |- *; destruct Haw as [Hm2 Hl2]; [split; congruence|].
    destruct e; simpl; split; congruence. }
  unfold wait_for.
  destruct (send_command sched method params timeout deadline st)
    as [st' [v|[|[]| | | | | | |]]]; exact H.
Qed.

Ltac pure_step :=
  match goal with
  | |- safe eq (bind _ _) => apply (safe_bind eq); [|intros ?]
  | |- safe eq (lift _) => apply (safe_lift eq); auto with pyexc
  | |- safe eq (ret _) => apply (safe_ret eq)
  | |- safe eq (if ?b then _ else _) => destruct b
  | |- safe eq (match ?x with _ => _ end) => destruct x
  end.

(** Without recursion the loop over the properties touches nothing. *)
Lemma properties_loop_pure items obj st :
  (properties_loop None items obj st).1 = st.
Proof.
  symmetry.
  by destruct (safe_properties_loop eq None items ltac:(done) obj st).
Qed.

Lemma try_except_state {A} (m : M A) (x : A) (f : exn → A) st :
  (try_except m (ret x) (fun e => ret (f e)) st).1 = (m st).1.
Proof.
  unfold try_except, ret. destruct (m st) as [st' [v|e]]; [done|].
  by repeat case_match.
Qed.

Lemma bind_pure_state {A B} (m : M A) (k : A → M B) st :
  (∀ x, safe eq (k x)) → (bind m k st).1 = (m st).1.
Proof.
  intros Hk. unfold bind. destruct (m st) as [st' [x|e]]; [|done].
  symmetry. apply Hk.
Qed.

Lemma depth_zero_one_fetch str_exn sched object_id st :
  let st' := (get_object_properties str_exn sched 0 object_id st).1 in
  msg_id st' = msg_id st + 1 ∧ length (futures st') = S (length (futures st)).
Proof.
  simpl. rewrite try_except_state. unfold get_object_properties_try.
  rewrite bind_pure_state.
  - apply fetch_counts.
  - intros result. repeat pure_step.
    apply safe_properties_loop; [apply _ | done].
Qed.

Lemma py_in_dict_true k d :
  py_in k (PDict d) = Ok true →
  ∃ v, dict_get d (HStr k) = Some v ∧ py_getitem (PDict d) k = Ok v.
Proof.
  simpl. intros [= H]. apply bool_decide_eq_true in H as [v Hv].
  exists v. by rewrite Hv.
Qed.

Lemma py_in_dict_false k d :
  py_in k (PDict d) = Ok false → dict_get d (HStr k) = None.
Proof.
  simpl. intros [= H]. apply bool_decide_eq_false in H.
  destruct (dict_get d (HStr k)); [|done]. by destruct H.
Qed.

Lemma preview_props_ok ps :
  forallb wf_property_preview ps = true →
  ∀ obj, ∃ obj', preview_props ps obj = Ok obj'.
Proof.
  induction ps as [|p ps IH]; intros Hwf obj; simpl; [eauto|].
  simpl in Hwf. apply andb_true_iff in Hwf as [Hp Hps].
  destruct p as [| | | | |d]; try discriminate. simpl in *.
  destruct (dict_get d (HStr "name")) as [[| | |s| |]|]; try discriminate;
    simpl; by apply IH.
Qed.

Lemma preview_to_dict_ok preview :
  wf_preview preview = true → ∃ obj, preview_to_dict preview = Ok obj.
Proof.
  destruct preview as [| | | | |d]; try discriminate. simpl.
  unfold preview_to_dict. simpl.
  destruct (dict_get d (HStr "properties")) as [[| | | |ps|]|]; try discriminate;
    simpl; intros Hwf.
  - destruct (preview_props_ok ps Hwf []) as [obj ->]. simpl.
    case_match; eauto.
  - case_match; eauto.
Qed.

Ltac case_if :=
  match goal with
  | |- context [if ?b then _ else _] => destruct b eqn:?
  end.

Lemma format_arg_returns py_repr str_exn sched arg st :
  wf_descriptor arg = true →
  ∃ text is_complex,
    (format_arg py_repr str_exn sched arg st).2 = Ok (PStr text, is_complex).
Proof.
  destruct arg as [| | | | |d]; try discriminate. simpl.
  intros [Hdesc Hprev]%andb_true_iff.
  unfold format_arg.
  remember (get_object_properties str_exn sched 2) as fetch eqn:Efetch.
  unfold bind, lift, ret. simpl.
  destruct (bool_decide (is_Some (dict_get d (HStr "value")))) eqn:Hv.
  { apply bool_decide_eq_true in Hv as [val ->]. case_if; simpl; eauto. }
  case_if; simpl.
  2:{ destruct (bool_decide (is_Some (dict_get d (HStr "description")))) eqn:Hd.
      - apply bool_decide_eq_true in Hd as [desc ->]. simpl; eauto.
      - repeat case_if; simpl; eauto. }
  destruct (bool_decide (is_Some (dict_get d (HStr "preview")))) eqn:Hp.
  { apply bool_decide_eq_true in Hp as [preview Ep]. rewrite Ep in *.
    destruct (preview_to_dict_ok preview Hprev) as [obj ->]. simpl.
    unfold decorated. case_if; eauto. }
  destruct (bool_decide (is_Some (dict_get d (HStr "objectId")))) eqn:Ho.
  { apply bool_decide_eq_true in Ho as [object_id ->].
    destruct (get_object_properties_returns str_exn sched 2 object_id st)
      as [node Hnode].
    rewrite <- Efetch in Hnode.
    destruct (fetch object_id st) as [st' r] eqn:E. simpl in Hnode. subst r.
    rewrite Efetch in E. apply get_object_properties_node in E.
    destruct node; try discriminate; simpl; eauto.
    unfold decorated. case_if; eauto. }
  destruct (dict_get d (HStr "description")) as [[| | |s| |]|];
    try discriminate; simpl; eauto.
Qed.

(** C3: materialization is total.  [get_object_properties] returns a
    printable node (a string or a mapping) for every object id, depth and
    schedule of replies; [format_arg] returns a text for every well-formed
    descriptor; and at [max_depth = 0] exactly one request is made, the
    fetch of the object itself: the loop over its properties then runs
    without recursion and leaves the session as it is, whatever handles
    the properties carry. *)
Theorem materialize_total py_repr str_exn sched max_depth object_id arg st :
  wf_descriptor arg = true →
  (∃ st' node,
     get_object_properties str_exn sched max_depth object_id st = (st', Ok node)
     ∧ is_node node = true)
  ∧ (∃ text is_complex,
       (format_arg py_repr str_exn sched arg st).2 = Ok (PStr text, is_complex))
  ∧ (let st0 := (get_object_properties str_exn sched 0 object_id st).1 in
     msg_id st0 = msg_id st + 1
     ∧ length (futures st0) = S (length (futures st)))
  ∧ (∀ items obj, (properties_loop None items obj st).1 = st).
Proof.
  intros Hwf. split; [|split; [|split]]; [| | |intros; apply properties_loop_pure].
  - destruct (get_object_properties_returns str_exn sched max_depth object_id st)
      as [node Hnode].
    destruct (get_object_properties str_exn sched max_depth object_id st)
      as [st' r] eqn:E. simpl in Hnode. subst r.
    exists st', node. split; [done|]. by eapply get_object_properties_node.
  - by apply format_arg_returns.
  - apply depth_zero_one_fetch.
Qed.

Lemma materialize_total_witness :
  (∃ st' node,
     get_object_properties cpython_str_exn (fun _ => []) 2 (PStr "7") connected
     = (st', Ok node) ∧ is_node node = true)
  ∧ (∃ text is_complex,
       (format_arg cpython_repr cpython_str_exn (fun _ => []) (handle "7")
          connected).2 = Ok (PStr text, is_complex))
  ∧ (let st0 := (get_object_properties cpython_str_exn (fun _ => []) 0
                   (PStr "7") connected).1 in
     msg_id st0 = msg_id connected + 1
     ∧ length (futures st0) = S (length (futures connected)))
  ∧ (∀ items obj, (properties_loop None items obj connected).1 = connected).
Proof.
  apply (materialize_total cpython_repr cpython_str_exn (fun _ => []) 2
           (PStr "7") (handle "7") connected).
  reflexivity.
Defined.

(** ** Failed fetches *)

Lemma fetch_unanswered sched object_id st :
  is_open st = true → unanswered sched object_id st →
  (wait_for (send_command sched "Runtime.getProperties"
               (Some (getProperties_params object_id)) 5000 (Some 2000)) st).2
  = Raise TimeoutError.
Proof.
  intros Hopen Hun. unfold unanswered in Hun.
  unfold wait_for, send_command, bind.
  pose proof (send_command_request_spec "Runtime.getProperties"
                (Some (getProperties_params object_id)) st) as Hreq.
  destruct (send_command_request _ _ st) as [st1 r1]; simpl in Hreq, Hun.
  destruct Hreq as (_ & _ & _ & _ & _ & Hr). rewrite Hopen in Hr. subst r1.
  unfold await_future. by rewrite Hun.
Qed.

Lemma fetch_closed sched method params st ch :
  ws st = Some ch → closed ch = true →
  (wait_for (send_command sched method params 5000 (Some 2000)) st).2
  = Raise ConnectionClosed.
Proof.
  intros Hws Hclosed.
  unfold wait_for, send_command, bind, send_command_request, bind, modify,
    get, ret, ws_send. simpl. rewrite Hws, Hclosed. reflexivity.
Qed.

Lemma try_raises sched recurse object_id st e :
  (wait_for (send_command sched "Runtime.getProperties"
               (Some (getProperties_params object_id)) 5000 (Some 2000)) st).2
  = Raise e →
  (get_object_properties_try sched recurse object_id st).2 = Raise e.
Proof.
  unfold get_object_properties_try, bind.
  destruct (wait_for _ st) as [st1 [v|e']]; simpl; [discriminate | done].
Qed.

Lemma get_object_properties_unfold str_exn sched max_depth object_id :
  get_object_properties str_exn sched max_depth object_id
  = try_except
      (get_object_properties_try sched
         (match max_depth with
          | O => None
          | S d => Some (get_object_properties str_exn sched d)
          end) object_id)
      (ret (PStr "[Object: timeout]"))
      (fun e => ret (PStr ("[Object: " +:+ str_exn e +:+ "]"))).
Proof. by destruct max_depth. Qed.

Lemma try_except_timeout {A} (m : M A) (x : A) (f : exn → A) st :
  (m st).2 = Raise TimeoutError →
  try_except m (ret x) (fun e => ret (f e)) st = ((m st).1, Ok x).
Proof.
  unfold try_except, ret. destruct (m st) as [st' [v|e]]; simpl; [done|].
  by intros [= ->].
Qed.

Lemma try_except_exception {A} (m : M A) (x : A) (f : exn → A) st e :
  (m st).2 = Raise e → e ≠ TimeoutError → is_Exception e = true →
  try_except m (ret x) (fun e => ret (f e)) st = ((m st).1, Ok (f e)).
Proof.
  unfold try_except, ret. destruct (m st) as [st' [v|e']]; simpl; [done|].
  intros [= ->] Hne He. destruct e; simpl in *; done.
Qed.

Lemma try_except_escape {A} (m : M A) (x : A) (f : exn → A) st e :
  (m st).2 = Raise e → is_Exception e = false →
  (try_except m (ret x) (fun e => ret (f e)) st).2 = Raise e.
Proof.
  unfold try_except, ret. destruct (m st) as [st' [v|e']]; simpl; [done|].
  intros [= ->] He. destruct e; simpl in *; done.
Qed.

Lemma unanswered_fetch_times_out str_exn sched max_depth object_id st :
  is_open st = true → unanswered sched object_id st →
  (get_object_properties str_exn sched max_depth object_id st).2
  = Ok (PStr "[Object: timeout]").
Proof.
  intros Hopen Hun. rewrite get_object_properties_unfold.
  rewrite (try_except_timeout _ _
             (fun e => PStr ("[Object: " +:+ str_exn e +:+ "]"))); [done|].
  apply try_raises. by apply fetch_unanswered.
Qed.

(** C4: a property fetch that fails never makes the materializer fail.
    [get_object_properties] always returns; when the fetch times out it
    returns exactly ["[Object: timeout]"]; when its [try] block raises any
    other error [e] it returns ["[Object: " + str(e) + "]"], as for a write
    to a closed channel. *)
Theorem fetch_failure_is_sentinel str_exn sched max_depth object_id st :
  let attempt :=
    get_object_properties_try sched
      (match max_depth with
       | O => None
       | S d => Some (get_object_properties str_exn sched d)
       end) object_id st in
  let r := get_object_properties str_exn sched max_depth object_id st in
  (∃ node, r.2 = Ok node)
  ∧ (is_open st = true → unanswered sched object_id st →
     r.2 = Ok (PStr "[Object: timeout]"))
  ∧ (attempt.2 = Raise TimeoutError →
     r = (attempt.1, Ok (PStr "[Object: timeout]")))
  ∧ (∀ e, attempt.2 = Raise e → e ≠ TimeoutError →
     r = (attempt.1, Ok (PStr ("[Object: " +:+ str_exn e +:+ "]"))))
  ∧ (∀ ch, ws st = Some ch → closed ch = true →
     r.2 = Ok (PStr ("[Object: " +:+ str_exn ConnectionClosed +:+ "]"))).
Proof.
  simpl.
  pose proof (get_object_properties_returns str_exn sched max_depth object_id st)
    as Hret.
  rewrite get_object_properties_unfold in *.
  set (m := get_object_properties_try sched _ object_id) in *.
  assert (Hother : ∀ e, (m st).2 = Raise e → e ≠ TimeoutError →
            try_except m (ret (PStr "[Object: timeout]"))
              (fun e => ret (PStr ("[Object: " +:+ str_exn e +:+ "]"))) st
            = ((m st).1, Ok (PStr ("[Object: " +:+ str_exn e +:+ "]")))).
  { intros e He Hne.
    destruct (is_Exception e) eqn:Hexc.
    - by apply (try_except_exception m _
                  (fun e => PStr ("[Object: " +:+ str_exn e +:+ "]"))).
    - destruct Hret as [node Hnode].
      rewrite (try_except_escape m _
                 (fun e => PStr ("[Object: " +:+ str_exn e +:+ "]")) st e He Hexc)
        in Hnode. discriminate. }
  split; [done|]. split; [|split; [|split; [done|]]].
  - intros Hopen Hun. subst m. rewrite <- get_object_properties_unfold.
    by apply unanswered_fetch_times_out.
  - apply (try_except_timeout m _
             (fun e => PStr ("[Object: " +:+ str_exn e +:+ "]"))).
  - intros ch Hws Hclosed. rewrite (Hother ConnectionClosed); [done| |done].
    apply try_raises. by eapply fetch_closed.
Qed.

Lemma fetch_failure_is_sentinel_witness :
  (get_object_properties cpython_str_exn (fun _ => [EnvClose]) 2 (PStr "7")
     connected).2 = Ok (PStr "[Object: timeout]")
  ∧ (get_object_properties cpython_str_exn (fun _ => []) 2 (PStr "7")
       (close connected)).2
    = Ok (PStr "[Object: sent 1000 (OK); then received 1000 (OK)]").
Proof.
  split.
  - apply (fetch_failure_is_sentinel cpython_str_exn (fun _ => [EnvClose]) 2
             (PStr "7") connected); reflexivity.
  - eapply (fetch_failure_is_sentinel cpython_str_exn (fun _ => []) 2
              (PStr "7") (close connected)); reflexivity.
Defined.

(** ** Formatting of console calls *)

Lemma handle_console_call py_repr str_exn sched log_type args st :
  handle_message py_repr str_exn sched (console_call log_type args) st
  = (parts <~ format_args py_repr str_exn sched args [] [] ;;
     emit_console py_repr (PStr log_type) parts) st.
Proof. reflexivity. Qed.

Lemma format_arg_value py_repr str_exn sched d v st :
  dict_get d (HStr "value") = Some v →
  format_arg py_repr str_exn sched (PDict d) st
  = (st, Ok (if is_container v
             then (PStr (json_dumps v), true)
             else (PStr (py_str py_repr v), false))).
Proof.
  intros Hv. unfold format_arg, bind, lift, ret. simpl. rewrite Hv. simpl.
  by destruct (is_container v).
Qed.

Lemma format_arg_handle py_repr str_exn sched d object_id st :
  dict_get d (HStr "value") = None →
  dict_get d (HStr "type") = Some (PStr "object") →
  dict_get d (HStr "preview") = None →
  dict_get d (HStr "objectId") = Some object_id →
  format_arg py_repr str_exn sched (PDict d) st
  = (obj <~ get_object_properties str_exn sched 2 object_id ;;
     if is_dict obj then
       class_name <~ lift (py_get (PDict d) "className" (PStr EmptyString)) ;;
       ret (decorated py_repr class_name (json_dumps obj), true)
     else ret (PStr (py_str py_repr obj), false)) st.
Proof.
  intros Hv Ht Hp Ho. unfold format_arg.
  remember (get_object_properties str_exn sched 2) as fetch.
  unfold bind, lift, ret. simpl. rewrite Hv, Ht, Hp, Ho. reflexivity.
Qed.

(** C10: when the fetch for an argument's handle degrades to a sentinel
    string instead of a mapping, [format_arg] flags the result simple, and
    the sentinel is printed inline on the [[console.<type>]] header line. *)
Theorem sentinel_is_inline py_repr str_exn sched log_type d object_id
    sentinel st st' :
  dict_get d (HStr "value") = None →
  dict_get d (HStr "type") = Some (PStr "object") →
  dict_get d (HStr "preview") = None →
  dict_get d (HStr "objectId") = Some object_id →
  get_object_properties str_exn sched 2 object_id st = (st', Ok (PStr sentinel)) →
  format_arg py_repr str_exn sched (PDict d) st = (st', Ok (PStr sentinel, false))
  ∧ handle_message py_repr str_exn sched (console_call log_type [PDict d]) st
    = (set_stdout (stdout st' ++ ["[console." +:+ log_type +:+ "] " +:+ sentinel])
         st', Ok tt).
Proof.
  intros Hv Ht Hp Ho Hfetch.
  assert (Hfa : format_arg py_repr str_exn sched (PDict d) st
                = (st', Ok (PStr sentinel, false))).
  { rewrite (format_arg_handle _ _ _ _ object_id) by done.
    unfold bind. by rewrite Hfetch. }
  split; [done|].
  rewrite handle_console_call. unfold bind at 1. simpl format_args.
  unfold bind at 1. rewrite Hfa. reflexivity.
Qed.

Lemma sentinel_is_inline_witness :
  handle_message cpython_repr cpython_str_exn (fun _ => [])
    (console_call "log" [handle "7"]) connected
  = (set_stdout ["[console.log] [Object: timeout]"]
       (get_object_properties cpython_str_exn (fun _ => []) 2 (PStr "7")
          connected).1,
     Ok tt).
Proof.
  apply (sentinel_is_inline cpython_repr cpython_str_exn (fun _ => []) "log"
           [(HStr "type", PStr "object"); (HStr "objectId", PStr "7")]
           (PStr "7") "[Object: timeout]" connected); reflexivity.
Defined.

Lemma strs_from_strings ss : ∀ i, strs_from i (map PStr ss) = Ok ss.
Proof.
  induction ss as [|s ss IH]; intros i; simpl; [done|]. by rewrite IH.
Qed.

Lemma format_args_scalars py_repr str_exn sched (args : list (string * pyval)) :
  Forall (fun a => is_container a.2 = false) args →
  ∀ simple_parts st,
    format_args py_repr str_exn sched (map (fun a => inline a.1 a.2) args)
      simple_parts [] st
    = (st, Ok (simple_parts ++ map (fun a => PStr (py_str py_repr a.2)) args, [])).
Proof.
  induction 1 as [|[ty v] args Hv _ IH]; intros sp st; simpl.
  - by rewrite app_nil_r.
  - unfold bind at 1. unfold inline, obj. simpl in Hv |- *.
    rewrite (format_arg_value _ _ _ _ v) by reflexivity. rewrite Hv.
    rewrite IH. by rewrite <- app_assoc.
Qed.

(** C7: a console call whose arguments are all scalar inline values prints
    exactly one line, the values' texts joined by single spaces after the
    [[console.<type>]] prefix; for the arguments [5] and ["x"] of a [log]
    call the line is [[console.log] 5 x]. *)
Theorem scalars_on_one_line py_repr str_exn sched log_type
    (args : list (string * pyval)) st :
  args ≠ [] →
  Forall (fun a => is_container a.2 = false) args →
  handle_message py_repr str_exn sched
    (console_call log_type (map (fun a => inline a.1 a.2) args)) st
  = (set_stdout
       (stdout st ++ ["[console." +:+ log_type +:+ "] "
                      +:+ join " " (map (fun a => py_str py_repr a.2) args)])
       st, Ok tt)
  ∧ handle_message py_repr str_exn sched
      (console_call "log" [inline "number" (PInt 5); inline "string" (PStr "x")])
      st
    = (set_stdout (stdout st ++ ["[console.log] 5 x"]) st, Ok tt).
Proof.
  intros Hne Hscalar. split; [|reflexivity].
  rewrite handle_console_call. unfold bind at 1.
  rewrite format_args_scalars by done. simpl app.
  unfold emit_console.
  destruct args as [|a args]; [done|].
  replace (map (fun a => PStr (py_str py_repr a.2)) (a :: args))
    with (map PStr (map (fun a => py_str py_repr a.2) (a :: args)))
    by (by rewrite map_map).
  set (texts := map (fun a => py_str py_repr a.2) (a :: args)).
  assert (Htruthy : py_truthy (PList (map PStr texts)) = true) by done.
  rewrite Htruthy. simpl orb. cbv iota.
  unfold py_join. rewrite strs_from_strings. reflexivity.
Qed.

Lemma scalars_on_one_line_witness :
  handle_message cpython_repr cpython_str_exn (fun _ => [])
    (console_call "log" [inline "number" (PInt 5); inline "string" (PStr "x")])
    connected
  = (set_stdout ["[console.log] 5 x"] connected, Ok tt).
Proof.
  apply (scalars_on_one_line cpython_repr cpython_str_exn (fun _ => []) "log"
           [("number", PInt 5); ("string", PStr "x")] connected).
  - discriminate.
  - repeat constructor.
Defined.

(** The spec's wording of the composite-value case: the header line is
    exactly [[console.log]]. *)
Lemma header_keeps_separator :
  stdout (handle_message cpython_repr cpython_str_exn (fun _ => [])
            (console_call "log" [inline "object" (obj [("a", PInt 1)])])
            connected).1 !! 0%nat
  ≠ Some "[console.log]".
Proof. vm_compute. discriminate. Qed.

(** C6 (as the code has it): a console call whose single argument is the
    composite inline value [{"a":1}] prints the header line
    [[console.log] ] (the prefix, the separating space and an empty main
    line), followed by one block: the pretty-printed [{"a": 1}] with every
    line behind a fixed prefix of four spaces. *)
Theorem composite_value_block py_repr str_exn sched d st :
  dict_get d (HStr "value") = Some (obj [("a", PInt 1)]) →
  let pretty_value := json_dumps (obj [("a", PInt 1)]) in
  let block := "    {" +:+ NL +:+ "      " +:+ json_quote "a" +:+ ": 1"
               +:+ NL +:+ "    }" in
  handle_message py_repr str_exn sched (console_call "log" [PDict d]) st
  = (set_stdout (stdout st ++ ["[console.log] "; block]) st, Ok tt)
  ∧ pretty_value = "{" +:+ NL +:+ "  " +:+ json_quote "a" +:+ ": 1" +:+ NL +:+ "}"
  ∧ split_lines block
    = map (fun line => "    " +:+ line) (split_lines pretty_value).
Proof.
  intros Hv. simpl. split; [|split; reflexivity].
  rewrite handle_console_call. unfold bind at 1. simpl format_args.
  unfold bind at 1.
  rewrite (format_arg_value _ _ _ _ (obj [("a", PInt 1)])) by done.
  do 3 (unfold emit_console, bind, print, modify, lift, ret, set_stdout; simpl).
  by rewrite <- app_assoc.
Qed.

Lemma composite_value_block_witness :
  (handle_message cpython_repr cpython_str_exn (fun _ => [])
     (console_call "log" [inline "object" (obj [("a", PInt 1)])]) connected).1
  = set_stdout
      ["[console.log] ";
       "    {" +:+ NL +:+ "      " +:+ json_quote "a" +:+ ": 1" +:+ NL +:+ "    }"]
      connected.
Proof.
  destruct (composite_value_block cpython_repr cpython_str_exn (fun _ => [])
              [(HStr "type", PStr "object");
               (HStr "value", obj [("a", PInt 1)])] connected eq_refl)
    as [H _].
  exact (f_equal fst H).
Defined.

(** ** Exception events *)

(** C8: an exception event prints the single line
    [[console.error] EXCEPTION: <message>], the message being the exception
    object's description, else the event's text, else ["Unknown error"];
    with neither description nor text the line is
    [[console.error] EXCEPTION: Unknown error]. *)
Theorem exception_line py_repr str_exn sched details st :
  wf_exception_details details = true →
  handle_message py_repr str_exn sched (exception_thrown (PDict details)) st
  = (set_stdout
       (stdout st ++
        ["[console.error] EXCEPTION: "
         +:+ py_str py_repr
               (exception_message (exception_description details)
                  (dict_get details (HStr "text")))]) st, Ok tt)
  ∧ (exception_description details = None →
     dict_get details (HStr "text") = None →
     handle_message py_repr str_exn sched (exception_thrown (PDict details)) st
     = (set_stdout (stdout st ++ ["[console.error] EXCEPTION: Unknown error"])
          st, Ok tt)).
Proof.
  intros Hwf.
  assert (H : handle_message py_repr str_exn sched
                (exception_thrown (PDict details)) st
              = (set_stdout
                   (stdout st ++
                    ["[console.error] EXCEPTION: "
                     +:+ py_str py_repr
                           (exception_message (exception_description details)
                              (dict_get details (HStr "text")))]) st, Ok tt)).
  { unfold handle_message, exception_thrown, obj, bind, lift, ret, print,
      modify, handle_reply, exception_description, wf_exception_details in *.
    simpl.
    destruct (dict_get details (HStr "exception")) as [[| | | | |exc]|];
      try discriminate; simpl.
    - destruct (dict_get exc (HStr "description")),
        (dict_get details (HStr "text")); reflexivity.
    - destruct (dict_get details (HStr "text")); reflexivity. }
  split; [exact H|].
  intros Hd Ht. rewrite H, Hd, Ht. reflexivity.
Qed.

Lemma exception_line_witness :
  handle_message cpython_repr cpython_str_exn (fun _ => [])
    (exception_thrown (obj [("exceptionId", PInt 1)])) connected
  = (set_stdout ["[console.error] EXCEPTION: Unknown error"] connected, Ok tt).
Proof.
  apply (exception_line cpython_repr cpython_str_exn (fun _ => [])
           [(HStr "exceptionId", PInt 1)] connected); reflexivity.
Defined.

(** ** Errors while handling a frame *)

Lemma quiet_lift {A} (r : result A) : quiet (lift r).
Proof. done. Qed.

Lemma rq_ret {A} (x : A) : raise_quiet (ret x).
Proof. done. Qed.

Lemma rq_returns {A} (m : M A) : (∀ st, ∃ v, (m st).2 = Ok v) → raise_quiet m.
Proof. intros H st e He. destruct (H st) as [v Hv]. congruence. Qed.

Lemma rq_bind {A B} (m : M A) (k : A → M B) (Q : A → Prop) :
  quiet m → (∀ st x, (m st).2 = Ok x → Q x) →
  (∀ x, Q x → raise_quiet (k x)) → raise_quiet (bind m k).
Proof.
  intros Hm HQ Hk st e. unfold bind.
  specialize (Hm st). specialize (HQ st).
  destruct (m st) as [st' [x|e']]; simpl in *; [|done].
  intros He. rewrite <- Hm. by apply (Hk x (HQ x eq_refl) st' e).
Qed.

Lemma quiet_handle_reply msg : quiet (handle_reply msg).
Proof. intros st. apply same_stdout_reply. Qed.

Lemma quiet_format_args py_repr str_exn sched args simple_parts complex_parts :
  quiet (format_args py_repr str_exn sched args simple_parts complex_parts).
Proof.
  intros st.
  by destruct (safe_format_args same_stdout same_stdout_request
                 same_stdout_await same_stdout_pop py_repr str_exn sched
                 args simple_parts complex_parts st).
Qed.

Lemma decorated_str py_repr class_name formatted :
  is_pstr (decorated py_repr class_name formatted) = true.
Proof. unfold decorated. by case_match. Qed.

(** A complex result is always a string. *)
Lemma format_arg_complex_str py_repr str_exn sched arg st v :
  (format_arg py_repr str_exn sched arg st).2 = Ok (v, true) →
  is_pstr v = true.
Proof.
  unfold format_arg.
  remember (get_object_properties str_exn sched 2) as fetch.
  unfold bind, lift, ret.
  repeat case_match; simpl; intros [= <-]; try reflexivity;
    apply decorated_str.
Qed.

Lemma format_args_complex_strs py_repr str_exn sched args :
  ∀ simple_parts complex_parts st simple_parts' complex_parts',
    Forall (fun v => is_pstr v = true) complex_parts →
    (format_args py_repr str_exn sched args simple_parts complex_parts st).2
    = Ok (simple_parts', complex_parts') →
    Forall (fun v => is_pstr v = true) complex_parts'.
Proof.
  induction args as [|arg rest IH]; intros sp cp st sp' cp' Hcp; simpl.
  - by intros [= <- <-].
  - unfold bind at 1.
    destruct (format_arg py_repr str_exn sched arg st)
      as [st1 [[formatted is_complex]|e]] eqn:E; simpl; [|done].
    destruct is_complex.
    + apply IH. apply Forall_app. split; [done|]. constructor; [|done].
      eapply format_arg_complex_str. by rewrite E.
    + by apply IH.
Qed.

Lemma print_complex_returns complex_parts :
  Forall (fun v => is_pstr v = true) complex_parts →
  ∀ st, ∃ u, (print_complex complex_parts st).2 = Ok u.
Proof.
  induction 1 as [|v rest Hv _ IH]; intros st; simpl; [by exists tt|].
  destruct v; try discriminate. apply IH.
Qed.

Lemma rq_handle_message py_repr str_exn sched msg :
  raise_quiet (handle_message py_repr str_exn sched msg).
Proof.
  unfold handle_message.
  apply (rq_bind _ _ (fun _ => True)); [apply quiet_handle_reply | done |].
  intros consumed _. destruct consumed; [apply rq_ret|].
  apply (rq_bind _ _ (fun _ => True)); [apply quiet_lift | done |].
  intros method _.
  repeat match goal with
  | |- raise_quiet (if ?b then _ else _) => destruct b
  | |- raise_quiet (ret _) => apply rq_ret
  | |- raise_quiet (print _) => apply rq_returns; intros ?; by exists tt
  | |- raise_quiet (bind (lift _) _) =>
      apply (rq_bind _ _ (fun _ => True)); [apply quiet_lift | done | intros ? _]
  end.
  apply (rq_bind _ _ (fun parts => Forall (fun v => is_pstr v = true) parts.2));
    [apply quiet_format_args | |].
  - intros st [sp cp] H. by eapply format_args_complex_strs.
  - intros [sp cp] Hcp. simpl in Hcp.
    destruct (py_truthy (PList sp) || py_truthy (PList cp)); [|apply rq_ret].
    apply (rq_bind _ _ (fun _ => True)); [apply quiet_lift | done |].
    intros main_line _. apply rq_returns. intros st.
    unfold bind, print, modify. simpl. by apply print_complex_returns.
Qed.

Lemma handle_message_script_error py_repr str_exn sched msg st e :
  (handle_message py_repr str_exn sched msg st).2 = Raise e →
  script_error e = true.
Proof.
  destruct (safe_handle_message any_state ltac:(done) ltac:(done) ltac:(done)
              py_repr str_exn sched ltac:(done) ltac:(done) msg st) as [_ H].
  apply H.
Qed.

Lemma run_returns py_repr str_exn json_loads signals arrivals connection_closed st :
  loads_plain json_loads →
  (run py_repr str_exn json_loads signals arrivals connection_closed st).2 = Ok tt.
Proof.
  intros Hloads. unfold run.
  destruct (run_loop_safe any_state ltac:(done) ltac:(done) ltac:(done)
              ltac:(done) ltac:(done) ltac:(done)
              py_repr str_exn json_loads signals arrivals st) as [_ Hne].
  specialize (Hne Hloads).
  destruct (run_loop py_repr str_exn json_loads signals arrivals st)
    as [st' [| |e]]; simpl in *.
  - by destruct connection_closed.
  - done.
  - by destruct (Hne e).
Qed.

(** C9 (as the code has it): errors are contained in the frame that causes
    them.  A frame on which [json.loads] raises [JSONDecodeError] is
    dropped: the loop goes on from the same state.  Any other error raised
    while a frame is handled, another failure of [json.loads] included,
    adds exactly one line, [[parse-error] <error>], to the output the frame
    had found, and the loop goes on with the next frame.  [run] itself
    never raises. *)
Theorem frame_errors_contained py_repr str_exn json_loads signals message rest st :
  running st = true →
  let loop := run_loop py_repr str_exn json_loads signals in
  (∀ what, json_loads message = Raise (JSONDecodeError what) →
     loop (Frame message :: rest) st = loop rest st)
  ∧ (∀ msg st' e,
       json_loads message = Ok msg →
       handle_message py_repr str_exn (run_schedule signals) msg st
       = (st', Raise e) →
       stdout st' = stdout st
       ∧ loop (Frame message :: rest) st
         = loop rest
             (set_stdout (stdout st ++ ["[parse-error] " +:+ str_exn e]) st'))
  ∧ (∀ e, json_loads message = Raise e → script_error e = true →
       loop (Frame message :: rest) st
       = loop rest (set_stdout (stdout st ++ ["[parse-error] " +:+ str_exn e]) st))
  ∧ (loads_plain json_loads →
     ∀ arrivals connection_closed st0,
       (run py_repr str_exn json_loads signals arrivals connection_closed st0).2
       = Ok tt).
Proof.
  intros Hrun loop. subst loop. split; [|split; [|split]].
  - intros what Hload. simpl. rewrite Hrun. simpl.
    unfold bind, lift. by rewrite Hload.
  - intros msg st' e Hload Hh.
    assert (Hout : stdout st' = stdout st).
    { pose proof (rq_handle_message py_repr str_exn (run_schedule signals)
                    msg st e) as H.
      rewrite Hh in H. by apply H. }
    split; [done|].
    assert (He : script_error e = true).
    { eapply handle_message_script_error. by rewrite Hh. }
    simpl. rewrite Hrun. simpl. unfold bind, lift. rewrite Hload, Hh.
    unfold print, modify. simpl. rewrite Hout.
    destruct e; simpl in *; done.
  - intros e Hload He. simpl. rewrite Hrun. simpl.
    unfold bind, lift. rewrite Hload.
    destruct e; simpl in *; done.
  - intros Hloads arrivals cc st0. by apply run_returns.
Qed.

Lemma sample_loads_plain : loads_plain sample_loads.
Proof.
  intros message e. unfold sample_loads.
  repeat case_match; intros [= <-]; reflexivity.
Qed.

Lemma frame_errors_contained_witness :
  let loop := run_loop cpython_repr cpython_str_exn sample_loads (fun _ => O) in
  loop [Frame "{"; Frame "[1]"] connected = loop [Frame "[1]"] connected
  ∧ loop [Frame "[1]"] connected
    = (set_stdout ["[parse-error] 'list' object has no attribute 'get'"]
         connected, Exhausted)
  ∧ (run cpython_repr cpython_str_exn sample_loads (fun _ => O)
       [Frame "{"; Frame "[1]"] true connected).2 = Ok tt.
Proof.
  destruct (frame_errors_contained cpython_repr cpython_str_exn sample_loads
              (fun _ => O) "{" [Frame "[1]"] connected eq_refl)
    as (Hdrop & _).
  destruct (frame_errors_contained cpython_repr cpython_str_exn sample_loads
              (fun _ => O) "[1]" [] connected eq_refl)
    as (_ & Hline & _ & Hrun).
  split; [|split].
  - exact (Hdrop "Expecting value" eq_refl).
  - exact (proj2 (Hline (PList [PInt 1]) connected (AttributeError "list" "get")
                    eq_refl eq_refl)).
  - exact (Hrun sample_loads_plain _ _ _).
Defined.

(** The frame of 2000 brackets fails to parse and is not dropped: it
    prints a [[parse-error]] line. *)
Lemma unparsable_frame_is_reported :
  ¬ parse_failure_dropped limited_loads deep_frame connected.
Proof.
  intros H.
  assert (Hfail : ∃ e, limited_loads deep_frame = Raise e).
  { exists recursion_error. vm_compute. reflexivity. }
  apply H in Hfail.
  apply (f_equal (fun r => length (stdout r.1))) in Hfail.
  vm_compute in Hfail. discriminate Hfail.
Qed.

Example unparsable_frame_line :
  stdout (run_loop cpython_repr cpython_str_exn limited_loads (fun _ => O)
            [Frame deep_frame] connected).1
  = ["[parse-error] maximum recursion depth exceeded"].
Proof. vm_compute. reflexivity. Qed.

(** ** Nested fetches under the read loop *)

Lemma interleave_closes n : ∀ st,
  futures (interleave (replicate n EnvClose) st) = futures st.
Proof.
  unfold interleave.
  induction n as [|n IH]; intros st; simpl; [done|].
  rewrite IH. by destruct (close_frame st) as (_ & _ & -> & _).
Qed.

Lemma run_schedule_unanswered signals object_id st :
  unanswered (run_schedule signals) object_id st.
Proof.
  unfold unanswered, run_schedule. rewrite interleave_closes.
  destruct (send_command_request_spec "Runtime.getProperties"
              (Some (getProperties_params object_id)) st) as (_ & -> & _).
  by rewrite lookup_app_r, Nat.sub_diag.
Qed.

(** C2 (what the code does instead): [run] handles the frames one after
    the other and takes the next one only when [handle_message] has
    returned, so the reply to a nested fetch is never delivered while its
    handler waits: under [run] every nested fetch on the open channel ends
    as ["[Object: timeout]"], even when the reply is the very next frame;
    that reply is then handled late, finds its future cancelled and yields
    a diagnostic line. *)
Theorem nested_fetch_never_answered py_repr str_exn json_loads signals
    max_depth object_id st event_text reply_text :
  is_open st = true →
  json_loads event_text = Ok sample_event →
  json_loads reply_text = Ok sample_reply →
  (get_object_properties str_exn (run_schedule signals) max_depth object_id st).2
  = Ok (PStr "[Object: timeout]")
  ∧ stdout (run py_repr str_exn json_loads (fun _ => O)
              [Frame event_text; Frame reply_text] false connected).1
    = ["[console.log] [Object: timeout]";
       "[parse-error] " +:+ str_exn InvalidStateError].
Proof.
  intros Hopen Hev Hrp. split.
  - apply unanswered_fetch_times_out; [done|]. apply run_schedule_unanswered.
  - unfold run. cbn [run_loop].
    replace (running connected) with true by reflexivity. cbn [negb].
    unfold bind at 1, lift at 1. rewrite Hev.
    destruct (handle_message py_repr str_exn (run_schedule (fun _ => O))
                sample_event connected) as [st1 r1] eqn:E1.
    vm_compute in E1. injection E1 as <- <-.
    cbn [run_loop running negb].
    unfold bind at 1, lift at 1. rewrite Hrp.
    vm_compute. reflexivity.
Qed.

Lemma nested_fetch_never_answered_witness :
  (get_object_properties cpython_str_exn (run_schedule (fun _ => 1%nat)) 2
     (PStr "7") connected).2 = Ok (PStr "[Object: timeout]")
  ∧ stdout (run cpython_repr cpython_str_exn sample_loads (fun _ => O)
              [Frame (json_dumps sample_event); Frame (json_dumps sample_reply)]
              false connected).1
    = ["[console.log] [Object: timeout]"; "[parse-error] invalid state"].
Proof.
  apply (nested_fetch_never_answered cpython_repr cpython_str_exn sample_loads
           (fun _ => 1%nat) 2 (PStr "7") connected
           (json_dumps sample_event) (json_dumps sample_reply));
    reflexivity.
Defined.

(** * Further properties of the code *)

(** ** Mappings *)

Lemma hkey_eqb_refl k : hkey_eqb k k = true.
Proof.
  destruct k as [|[]|n|s]; simpl; try done.
  - apply Z.eqb_refl.
  - apply String.eqb_refl.
Qed.

Lemma hkey_eqb_str k s : hkey_eqb k (HStr s) = true → k = HStr s.
Proof.
  destruct k as [|[]|n|t]; simpl; try done.
  by intros ->%String.eqb_eq.
Qed.

Lemma dict_get_set_eq d k v : dict_get (dict_set d k v) k = Some v.
Proof.
  induction d as [|[k' v'] d IH]; simpl.
  - by rewrite hkey_eqb_refl.
  - destruct (hkey_eqb k' k) eqn:E; simpl; by rewrite E.
Qed.

Lemma dict_get_set_str_ne d s t v :
  s ≠ t → dict_get (dict_set d (HStr s) v) (HStr t) = dict_get d (HStr t).
Proof.
  intros Hne. induction d as [|[k' v'] d IH]; simpl.
  - destruct (String.eqb s t) eqn:E; [|done]. by apply String.eqb_eq in E.
  - destruct (hkey_eqb k' (HStr s)) eqn:E; simpl.
    + apply hkey_eqb_str in E as ->. simpl.
      destruct (String.eqb s t) eqn:E'; [|done]. by apply String.eqb_eq in E'.
    + by rewrite IH.
Qed.

Lemma dict_set_fresh d k v :
  dict_get d k = None → dict_set d k v = d ++ [(k, v)].
Proof.
  induction d as [|[k' v'] d IH]; simpl; [done|].
  destruct (hkey_eqb k' k); [done|]. intros H. by rewrite IH.
Qed.

(** ** Previews *)

Lemma to_hkey_not_str k name h :
  is_str k name = false → to_hkey name = Ok h → hkey_eqb h (HStr k) = false.
Proof.
  destruct name; simpl; intros Hk [= <-]; simpl; done.
Qed.

Lemma dict_get_set_other d h k v :
  hkey_eqb h (HStr k) = false →
  dict_get d (HStr k) = None → dict_get (dict_set d h v) (HStr k) = None.
Proof.
  intros Hne. induction d as [|[k' v'] d IH]; simpl.
  - by rewrite Hne.
  - destruct (hkey_eqb k' (HStr k)) eqn:E; [done|]. intros Hd.
    destruct (hkey_eqb k' h); simpl; rewrite E; auto.
Qed.

Lemma preview_props_not_named k items :
  Forall (not_named k) items →
  ∀ obj obj', dict_get obj (HStr k) = None →
              preview_props items obj = Ok obj' →
              dict_get obj' (HStr k) = None.
Proof.
  induction 1 as [|prop rest Hprop _ IH]; intros obj obj' Hobj; simpl.
  - by intros [= <-].
  - destruct (py_get prop "name" (PStr "?")) as [name|] eqn:En; simpl; [|done].
    destruct (py_get prop "description" (PStr "...")) as [dsc|]; simpl; [|done].
    destruct (py_get prop "value" dsc) as [v|]; simpl; [|done].
    unfold py_setitem.
    destruct (to_hkey name) as [h|] eqn:Eh; simpl; [|done].
    apply IH. apply dict_get_set_other; [|done].
    eapply to_hkey_not_str; [|done]. by apply Hprop.
Qed.

(** X1: a preview that reports overflow yields a mapping whose ["..."]
    entry is the marker ["(truncated)"]; the marker is the last entry as
    long as no property of the preview is itself named ["..."]. *)
Theorem truncated_preview_marker preview properties overflow items mapping :
  py_get preview "properties" (PList []) = Ok properties →
  py_iter properties = Ok items →
  py_get preview "overflow" PNone = Ok overflow →
  py_truthy overflow = true →
  preview_to_dict preview = Ok mapping →
  dict_get mapping (HStr "...") = Some (PStr "(truncated)")
  ∧ (Forall (not_named "...") items →
     last mapping = Some (HStr "...", PStr "(truncated)")).
Proof.
  intros Hp Hi Ho Ht. unfold preview_to_dict.
  rewrite Hp. simpl. rewrite Hi. simpl.
  destruct (preview_props items []) as [props|] eqn:E; simpl; [|done].
  rewrite Ho. simpl. rewrite Ht. intros [= <-].
  split; [apply dict_get_set_eq|].
  intros Hnames. rewrite dict_set_fresh.
  - by rewrite last_snoc.
  - eapply (preview_props_not_named "..." items Hnames []);
      [reflexivity | exact E].
Qed.

Lemma truncated_preview_marker_witness :
  let preview :=
    obj [("overflow", PBool true);
         ("properties", PList [obj [("name", PStr "a"); ("value", PStr "1")]])] in
  preview_to_dict preview
  = Ok [(HStr "a", PStr "1"); (HStr "...", PStr "(truncated)")]
  ∧ last [(HStr "a", PStr "1"); (HStr "...", PStr "(truncated)")]
    = Some (HStr "...", PStr "(truncated)").
Proof.
  split; [reflexivity|].
  eapply (truncated_preview_marker
            (obj [("overflow", PBool true);
                  ("properties",
                   PList [obj [("name", PStr "a"); ("value", PStr "1")]])]));
    try reflexivity.
  constructor; [|constructor]. intros name [= <-]. reflexivity.
Defined.

(** ** Dispatch *)

Lemma handle_reply_unmatched d st :
  unmatched d st → handle_reply (PDict d) st = (st, Ok false).
Proof.
  unfold unmatched, handle_reply, bind, lift, get, ret. simpl.
  destruct (dict_get d (HStr "id")) as [id|]; simpl; [|done].
  by intros ->.
Qed.

Lemma handle_reply_pending d n a st :
  dict_get d (HStr "id") = Some (PInt n) → pending st !! n = Some a →
  handle_reply (PDict d) st
  = (set_result a (PDict d) ;;; ret true)
      (set_pending (delete n (pending st)) st).
Proof.
  intros Hid Hp.
  unfold handle_reply, bind, lift, get, ret, modify, pending_find. simpl.
  rewrite Hid. simpl. rewrite Hp. reflexivity.
Qed.

(** X2: a frame whose id is pending is consumed as the reply to that
    request, whatever else it carries (a [method] included): the entry is
    removed, the request's future gets the whole frame as its result, and
    nothing is printed. *)
Theorem pending_id_is_a_reply py_repr str_exn sched d n a st :
  dict_get d (HStr "id") = Some (PInt n) →
  pending st !! n = Some a →
  futures st !! a = Some FPending →
  handle_message py_repr str_exn sched (PDict d) st
  = (set_futures (<[a := FResult (PDict d)]> (futures st))
       (set_pending (delete n (pending st)) st), Ok tt).
Proof.
  intros Hid Hp Hf. unfold handle_message, bind at 1.
  rewrite (handle_reply_pending d n a) by done.
  unfold bind, set_result, ret. simpl. by rewrite Hf.
Qed.

Lemma pending_id_is_a_reply_witness :
  handle_message cpython_repr cpython_str_exn (fun _ => [])
    (obj [("id", PInt 4); ("method", PStr "Log.entryAdded");
          ("params", obj [("entry", obj [("text", PStr "hello")])])])
    awaiting_reply
  = (set_futures
       [FResult (obj [("id", PInt 4); ("method", PStr "Log.entryAdded");
                      ("params", obj [("entry", obj [("text", PStr "hello")])])])]
       (set_pending (delete 4 (pending awaiting_reply)) awaiting_reply), Ok tt).
Proof.
  apply (pending_id_is_a_reply cpython_repr cpython_str_exn (fun _ => [])
           [(HStr "id", PInt 4); (HStr "method", PStr "Log.entryAdded");
            (HStr "params", obj [("entry", obj [("text", PStr "hello")])])]
           4 0%nat awaiting_reply); reflexivity.
Defined.

(** X3: a reply that arrives for a request whose future is already
    resolved or cancelled (a fetch that timed out) fails with
    [InvalidStateError]; the entry is removed all the same, so the same
    frame is no longer taken for a reply afterwards. *)
Theorem late_reply_fails py_repr str_exn sched d n a s st :
  dict_get d (HStr "id") = Some (PInt n) →
  pending st !! n = Some a →
  futures st !! a = Some s → s ≠ FPending →
  let st' := set_pending (delete n (pending st)) st in
  handle_message py_repr str_exn sched (PDict d) st = (st', Raise InvalidStateError)
  ∧ unmatched d st'.
Proof.
  intros Hid Hp Hf Hs. simpl. split.
  - unfold handle_message, bind at 1.
    rewrite (handle_reply_pending d n a) by done.
    unfold bind, set_result, ret. simpl. rewrite Hf. by destruct s.
  - unfold unmatched. rewrite Hid. unfold pending_find. simpl.
    by rewrite lookup_delete_eq.
Qed.

Lemma late_reply_fails_witness :
  let st := (get_object_properties cpython_str_exn (fun _ => []) 2 (PStr "7")
               connected).1 in
  handle_message cpython_repr cpython_str_exn (fun _ => []) sample_reply st
  = (set_pending (delete 4 (pending st)) st, Raise InvalidStateError).
Proof.
  apply (late_reply_fails cpython_repr cpython_str_exn (fun _ => [])
           [(HStr "id", PInt 4); (HStr "result", obj [("result", PList [])])]
           4 0%nat FCancelled); try reflexivity. discriminate.
Defined.

(** X4: a frame that is neither a reply to a pending request nor one of
    the three events is ignored: nothing is printed and the session is as
    before.  This is what happens to the replies to the three handshake
    commands, which [connect] sends without registering them. *)
Theorem other_frames_ignored py_repr str_exn sched d st :
  unmatched d st →
  let method := default (PStr EmptyString) (dict_get d (HStr "method")) in
  is_str "Runtime.consoleAPICalled" method = false →
  is_str "Runtime.exceptionThrown" method = false →
  is_str "Log.entryAdded" method = false →
  handle_message py_repr str_exn sched (PDict d) st = (st, Ok tt).
Proof.
  intros Hun method H1 H2 H3. unfold handle_message, bind at 1.
  rewrite handle_reply_unmatched by done.
  unfold bind, lift, ret. simpl. fold method. by rewrite H1, H2, H3.
Qed.

Lemma other_frames_ignored_witness :
  handle_message cpython_repr cpython_str_exn (fun _ => [])
    (reply 1 (obj [])) connected = (connected, Ok tt)
  ∧ handle_message cpython_repr cpython_str_exn (fun _ => [])
      (reply 3 (obj [])) connected = (connected, Ok tt).
Proof.
  split.
  - apply (other_frames_ignored cpython_repr cpython_str_exn (fun _ => [])
             [(HStr "id", PInt 1); (HStr "result", obj [])] connected);
      reflexivity.
  - apply (other_frames_ignored cpython_repr cpython_str_exn (fun _ => [])
             [(HStr "id", PInt 3); (HStr "result", obj [])] connected);
      reflexivity.
Defined.

(** X5: a console call without arguments (no [args], or an empty list)
    prints nothing and leaves the session as it is. *)
Theorem console_call_without_arguments py_repr str_exn sched d params st :
  unmatched d st →
  dict_get d (HStr "method") = Some (PStr "Runtime.consoleAPICalled") →
  dict_get d (HStr "params") = Some (PDict params) →
  py_iter (default (PList []) (dict_get params (HStr "args"))) = Ok [] →
  handle_message py_repr str_exn sched (PDict d) st = (st, Ok tt).
Proof.
  intros Hun Hm Hp Hargs. unfold handle_message, bind at 1.
  rewrite handle_reply_unmatched by done.
  unfold bind, lift, ret. simpl. rewrite Hm. simpl. rewrite Hp. simpl.
  rewrite Hargs. reflexivity.
Qed.

Lemma console_call_without_arguments_witness :
  handle_message cpython_repr cpython_str_exn (fun _ => [])
    (console_call "log" []) connected = (connected, Ok tt)
  ∧ handle_message cpython_repr cpython_str_exn (fun _ => [])
      (obj [("method", PStr "Runtime.consoleAPICalled");
            ("params", obj [("type", PStr "warning")])]) connected
    = (connected, Ok tt).
Proof.
  split.
  - apply (console_call_without_arguments cpython_repr cpython_str_exn
             (fun _ => [])
             [(HStr "method", PStr "Runtime.consoleAPICalled");
              (HStr "params", obj [("type", PStr "log"); ("args", PList [])])]
             [(HStr "type", PStr "log"); (HStr "args", PList [])] connected);
      reflexivity.
  - apply (console_call_without_arguments cpython_repr cpython_str_exn
             (fun _ => [])
             [(HStr "method", PStr "Runtime.consoleAPICalled");
              (HStr "params", obj [("type", PStr "warning")])]
             [(HStr "type", PStr "warning")] connected);
      reflexivity.
Defined.

(** X6: a log entry prints [[<level>] <text>], with the level ["info"]
    when the entry names none; an entry whose text is empty or missing
    prints nothing. *)
Theorem log_entry_line py_repr str_exn sched entry text st :
  let level := default (PStr "info") (dict_get entry (HStr "level")) in
  default (PStr EmptyString) (dict_get entry (HStr "text")) = PStr text →
  handle_message py_repr str_exn sched (log_entry (PDict entry)) st
  = (if String.eqb text EmptyString then st
     else set_stdout
            (stdout st ++ ["[" +:+ py_str py_repr level +:+ "] " +:+ text]) st,
     Ok tt).
Proof.
  intros level Ht.
  unfold handle_message, log_entry, obj, bind, lift, ret, handle_reply, print,
    modify. simpl. fold level. rewrite Ht. simpl.
  by destruct (String.eqb text EmptyString).
Qed.

Lemma log_entry_line_witness :
  handle_message cpython_repr cpython_str_exn (fun _ => [])
    (log_entry (obj [("text", PStr "Failed to load resource")])) connected
  = (set_stdout ["[info] Failed to load resource"] connected, Ok tt)
  ∧ handle_message cpython_repr cpython_str_exn (fun _ => [])
      (log_entry (obj [("level", PStr "error")])) connected
    = (connected, Ok tt).
Proof.
  split.
  - apply (log_entry_line cpython_repr cpython_str_exn (fun _ => [])
             [(HStr "text", PStr "Failed to load resource")]
             "Failed to load resource" connected). reflexivity.
  - apply (log_entry_line cpython_repr cpython_str_exn (fun _ => [])
             [(HStr "level", PStr "error")] EmptyString connected). reflexivity.
Defined.

(** ** Requests and their replies *)

Lemma send_command_request_open method params st :
  is_open st = true →
  send_command_request method params st
  = (requested st (request_message (msg_id st + 1) method params),
     Ok (msg_id st + 1, length (futures st))).
Proof.
  unfold is_open, requested, chan_sent, send_command_request, bind, modify,
    get, ret, ws_send, request_message. simpl.
  destruct (ws st) as [[[] snt]|]; simpl; try discriminate. done.
Qed.

Lemma requested_future st request :
  futures (requested st request) !! length (futures st) = Some FPending.
Proof. simpl. by rewrite lookup_app_r, Nat.sub_diag. Qed.

Lemma insert_last_future (h : list future) (x y : future) :
  <[length h := y]> (h ++ [x]) = h ++ [y].
Proof. rewrite insert_app_r_alt by lia. by rewrite Nat.sub_diag. Qed.

Lemma send_command_answered sched method params timeout deadline st d :
  is_open st = true →
  sched (length (futures st)) = [EnvReply (PDict d)] →
  dict_get d (HStr "id") = Some (PInt (msg_id st + 1)) →
  send_command sched method params timeout deadline st
  = (answered st (request_message (msg_id st + 1) method params) (PDict d),
     Ok (PDict d)).
Proof.
  intros Hopen Hsched Hid. unfold send_command, bind at 1.
  rewrite send_command_request_open by done.
  set (request := request_message _ _ _).
  unfold await_future. rewrite Hsched. simpl.
  rewrite (handle_reply_pending d (msg_id st + 1) (length (futures st)));
    [|done|simpl; apply lookup_insert_eq].
  unfold bind, set_result, ret. simpl.
  rewrite lookup_app_r, Nat.sub_diag by done. simpl.
  rewrite insert_last_future.
  rewrite lookup_app_r, Nat.sub_diag by done. reflexivity.
Qed.

Lemma send_command_unanswered sched method params timeout deadline st :
  is_open st = true →
  sched (length (futures st)) = [] →
  await_future sched (length (futures st)) timeout deadline
    (requested st (request_message (msg_id st + 1) method params))
  = (abandoned st (request_message (msg_id st + 1) method params),
     Raise (if expires_first deadline timeout
            then CancelledError true else TimeoutError)).
Proof.
  intros Hopen Hsched. unfold await_future. rewrite Hsched. simpl.
  rewrite lookup_app_r, Nat.sub_diag by done. simpl.
  by rewrite insert_last_future.
Qed.

(** X7: when the reply to a request is handled while [send_command]
    waits, [send_command] returns the whole reply frame; the message has
    been written, the id is no longer pending and nothing is printed. *)
Theorem reply_in_time sched method params timeout deadline st d :
  is_open st = true →
  sched (length (futures st)) = [EnvReply (PDict d)] →
  dict_get d (HStr "id") = Some (PInt (msg_id st + 1)) →
  let st' := answered st (request_message (msg_id st + 1) method params)
               (PDict d) in
  send_command sched method params timeout deadline st = (st', Ok (PDict d))
  ∧ pending st' !! (msg_id st + 1) = None
  ∧ stdout st' = stdout st.
Proof.
  intros Hopen Hsched Hid. simpl. split; [|split].
  - by apply send_command_answered.
  - apply lookup_delete_eq.
  - done.
Qed.

Lemma reply_in_time_witness :
  (send_command (fun _ => [EnvReply (reply 4 (obj []))]) "Runtime.evaluate"
     None 5000 None connected).2 = Ok (reply 4 (obj [])).
Proof.
  destruct (reply_in_time (fun _ => [EnvReply (reply 4 (obj []))])
              "Runtime.evaluate" None 5000 None connected
              [(HStr "id", PInt 4); (HStr "result", obj [])]
              eq_refl eq_refl eq_refl) as [H _].
  exact (f_equal snd H).
Defined.

(** X8: when nothing answers a request and no shorter enclosing timeout
    cuts it off, [send_command] returns [{"error": "timeout"}], its future
    is cancelled and its id is removed from [pending]. *)
Theorem own_timeout_result sched method params timeout deadline st :
  is_open st = true →
  sched (length (futures st)) = [] →
  expires_first deadline timeout = false →
  let waiting := abandoned st (request_message (msg_id st + 1) method params) in
  let st' := set_pending (delete (msg_id st + 1) (pending waiting)) waiting in
  send_command sched method params timeout deadline st = (st', Ok timeout_result)
  ∧ pending st' !! (msg_id st + 1) = None
  ∧ futures st' !! length (futures st) = Some FCancelled.
Proof.
  intros Hopen Hsched Hexp. simpl. split; [|split].
  - unfold send_command, bind at 1.
    rewrite send_command_request_open by done.
    rewrite send_command_unanswered by done. by rewrite Hexp.
  - apply lookup_delete_eq.
  - by rewrite lookup_app_r, Nat.sub_diag.
Qed.

Lemma own_timeout_result_witness :
  (send_command (fun _ => []) "Runtime.evaluate" None 5000 None connected).2
  = Ok (obj [("error", PStr "timeout")]).
Proof.
  destruct (own_timeout_result (fun _ => []) "Runtime.evaluate" None 5000 None
              connected eq_refl eq_refl eq_refl) as [H _].
  exact (f_equal snd H).
Defined.

Lemma fetch_abandoned sched object_id st :
  is_open st = true →
  sched (length (futures st)) = [] →
  wait_for (send_command sched "Runtime.getProperties"
              (Some (getProperties_params object_id)) 5000 (Some 2000)) st
  = (abandoned st (getProperties_command (msg_id st + 1) object_id),
     Raise TimeoutError).
Proof.
  intros Hopen Hsched. unfold wait_for, send_command, bind at 1.
  rewrite send_command_request_open by done.
  by rewrite send_command_unanswered by done.
Qed.

Lemma fetch_answered sched object_id st d :
  is_open st = true →
  sched (length (futures st)) = [EnvReply (PDict d)] →
  dict_get d (HStr "id") = Some (PInt (msg_id st + 1)) →
  wait_for (send_command sched "Runtime.getProperties"
              (Some (getProperties_params object_id)) 5000 (Some 2000)) st
  = (answered st (getProperties_command (msg_id st + 1) object_id) (PDict d),
     Ok (PDict d)).
Proof.
  intros Hopen Hsched Hid. unfold wait_for.
  by rewrite (send_command_answered _ _ _ _ _ _ d).
Qed.

(** X9: a fetch that times out inside [get_object_properties] is cut off
    by the enclosing 2-second [wait_for], not by [send_command]'s own
    timer: the result is ["[Object: timeout]"], but the request's id stays
    in [pending] for good, mapped to its cancelled future. *)
Theorem timed_out_fetch_stays_pending str_exn sched max_depth object_id st :
  is_open st = true →
  sched (length (futures st)) = [] →
  let st' := abandoned st (getProperties_command (msg_id st + 1) object_id) in
  get_object_properties str_exn sched max_depth object_id st
  = (st', Ok (PStr "[Object: timeout]"))
  ∧ pending st' !! (msg_id st + 1) = Some (length (futures st))
  ∧ futures st' !! length (futures st) = Some FCancelled.
Proof.
  intros Hopen Hsched. simpl. split; [|split].
  - rewrite get_object_properties_unfold.
    unfold try_except, get_object_properties_try, bind at 1.
    by rewrite fetch_abandoned by done.
  - apply lookup_insert_eq.
  - by rewrite lookup_app_r, Nat.sub_diag.
Qed.

Lemma timed_out_fetch_stays_pending_witness :
  let st' := (get_object_properties cpython_str_exn (fun _ => []) 2 (PStr "7")
                connected).1 in
  pending st' !! 4 = Some 0%nat ∧ futures st' !! 0%nat = Some FCancelled.
Proof.
  destruct (timed_out_fetch_stays_pending cpython_str_exn (fun _ => []) 2
              (PStr "7") connected eq_refl eq_refl) as (H & Hp & Hf).
  split; [exact Hp | exact Hf].
Defined.

(** ** Replies to a property fetch *)

Lemma get_object_properties_answered str_exn sched max_depth object_id st d :
  is_open st = true →
  sched (length (futures st)) = [EnvReply (PDict d)] →
  dict_get d (HStr "id") = Some (PInt (msg_id st + 1)) →
  get_object_properties str_exn sched max_depth object_id st
  = try_except
      (fun st1 =>
         (has_result <~ lift (py_in "result" (PDict d)) ;;
          if negb has_result then ret (PStr "[Object]")
          else
            props <~ lift (py_getitem (PDict d) "result") ;;
            items <~ lift (py_iter props) ;;
            mapping <~ properties_loop
                         (match max_depth with
                          | O => None
                          | S n => Some (get_object_properties str_exn sched n)
                          end) items [] ;;
            ret (PDict mapping)) st1)
      (ret (PStr "[Object: timeout]"))
      (fun e => ret (PStr ("[Object: " +:+ str_exn e +:+ "]")))
      (answered st (getProperties_command (msg_id st + 1) object_id) (PDict d)).
Proof.
  intros Hopen Hsched Hid. rewrite get_object_properties_unfold.
  unfold try_except, get_object_properties_try, bind at 1.
  by rewrite (fetch_answered _ _ _ d) by done.
Qed.

(** X10: a reply without a [result] member, such as an error reply, makes
    [get_object_properties] return ["[Object]"]. *)
Theorem reply_without_result str_exn sched max_depth object_id st d :
  is_open st = true →
  sched (length (futures st)) = [EnvReply (PDict d)] →
  dict_get d (HStr "id") = Some (PInt (msg_id st + 1)) →
  dict_get d (HStr "result") = None →
  get_object_properties str_exn sched max_depth object_id st
  = (answered st (getProperties_command (msg_id st + 1) object_id) (PDict d),
     Ok (PStr "[Object]")).
Proof.
  intros Hopen Hsched Hid Hres.
  rewrite (get_object_properties_answered _ _ _ _ _ d) by done.
  unfold try_except, bind, lift, ret. simpl. by rewrite Hres.
Qed.

Lemma reply_without_result_witness :
  (get_object_properties cpython_str_exn
     (fun _ => [EnvReply (obj [("id", PInt 4);
                               ("error", obj [("code", PInt (-32000))])])])
     2 (PStr "7") connected).2 = Ok (PStr "[Object]").
Proof.
  rewrite (reply_without_result cpython_str_exn _ 2 (PStr "7") connected
             [(HStr "id", PInt 4);
              (HStr "error", obj [("code", PInt (-32000))])]);
    reflexivity.
Defined.

(** X11: the loop over [result["result"]] expects a list of property
    descriptors.  When that member is a JSON object with at least one
    member (the protocol nests the list one level deeper, as
    [{"result": {"result": [...]}}]), the loop visits its keys, the first
    [prop.get] fails on a string and the method returns the error
    sentinel ["[Object: " + str(e) + "]"]. *)
Theorem result_object_is_an_error str_exn sched max_depth object_id st d
    key value members :
  is_open st = true →
  sched (length (futures st)) = [EnvReply (PDict d)] →
  dict_get d (HStr "id") = Some (PInt (msg_id st + 1)) →
  dict_get d (HStr "result") = Some (PDict ((HStr key, value) :: members)) →
  get_object_properties str_exn sched max_depth object_id st
  = (answered st (getProperties_command (msg_id st + 1) object_id) (PDict d),
     Ok (PStr ("[Object: " +:+ str_exn (AttributeError "str" "get") +:+ "]"))).
Proof.
  intros Hopen Hsched Hid Hres.
  rewrite (get_object_properties_answered _ _ _ _ _ d) by done.
  unfold try_except, bind, lift, ret. simpl. rewrite Hres. simpl.
  by destruct max_depth.
Qed.

Lemma result_object_is_an_error_witness :
  (get_object_properties cpython_str_exn (fun _ => [EnvReply sample_reply])
     2 (PStr "7") connected).2
  = Ok (PStr "[Object: 'str' object has no attribute 'get']").
Proof.
  rewrite (result_object_is_an_error cpython_str_exn _ 2 (PStr "7") connected
             [(HStr "id", PInt 4); (HStr "result", obj [("result", PList [])])]
             "result" (PList []) []);
    reflexivity.
Defined.

Lemma dict_get_app_none d k k' v :
  dict_get d k = None → hkey_eqb k' k = false →
  dict_get (d ++ [(k', v)]) k = None.
Proof.
  induction d as [|[k0 v0] d IH]; simpl.
  - by intros _ ->.
  - destruct (hkey_eqb k0 k); [done | auto].
Qed.

Lemma properties_loop_inline recurse (properties : list (string * pyval)) :
  NoDup properties.*1 →
  ∀ mapping st,
    Forall (fun name => dict_get mapping (HStr name) = None) properties.*1 →
    properties_loop recurse
      (map (fun p => inline_property p.1 p.2) properties) mapping st
    = (st, Ok (mapping ++ map (fun p => (HStr p.1, p.2)) properties)).
Proof.
  induction properties as [|[name value] rest IH]; intros Hnd mapping st Hfresh;
    simpl in *.
  - by rewrite app_nil_r.
  - apply NoDup_cons in Hnd as [Hname Hnd].
    apply Forall_cons in Hfresh as [Hn Hfresh].
    unfold bind at 1, lift at 1. simpl.
    unfold bind at 1, lift at 1. simpl.
    unfold bind at 1, lift at 1. simpl.
    unfold bind at 1. unfold bind at 1, lift at 1. simpl.
    rewrite dict_set_fresh by done.
    rewrite IH; [by rewrite <- app_assoc | done |].
    apply Forall_forall. intros k Hk.
    apply dict_get_app_none.
    + rewrite Forall_forall in Hfresh. by apply Hfresh.
    + simpl. apply String.eqb_neq. intros ->. by apply Hname.
Qed.

(** X12: when the reply lists properties with distinct names that all
    carry their value inline, [get_object_properties] returns the mapping
    from each name to its value, in the order of the reply, and makes no
    further request, whatever the depth and whatever the values are. *)
Theorem inline_properties_mapping str_exn sched max_depth object_id st d
    (properties : list (string * pyval)) :
  is_open st = true →
  sched (length (futures st)) = [EnvReply (PDict d)] →
  dict_get d (HStr "id") = Some (PInt (msg_id st + 1)) →
  dict_get d (HStr "result")
  = Some (PList (map (fun p => inline_property p.1 p.2) properties)) →
  NoDup properties.*1 →
  get_object_properties str_exn sched max_depth object_id st
  = (answered st (getProperties_command (msg_id st + 1) object_id) (PDict d),
     Ok (PDict (map (fun p => (HStr p.1, p.2)) properties))).
Proof.
  intros Hopen Hsched Hid Hres Hnd.
  rewrite (get_object_properties_answered _ _ _ _ _ d) by done.
  unfold try_except, bind at 1, lift at 1. simpl. rewrite Hres. simpl.
  do 2 (unfold bind at 1, lift at 1; simpl).
  unfold bind at 1.
  rewrite properties_loop_inline; [done..|].
  apply Forall_forall. by intros.
Qed.

Lemma inline_properties_mapping_witness :
  (get_object_properties cpython_str_exn
     (fun _ => [EnvReply
                  (reply 4 (PList [inline_property "a" (PInt 1);
                                   inline_property "b" (PStr "x")]))])
     2 (PStr "7") connected).2
  = Ok (PDict [(HStr "a", PInt 1); (HStr "b", PStr "x")]).
Proof.
  rewrite (inline_properties_mapping cpython_str_exn _ 2 (PStr "7") connected
             [(HStr "id", PInt 4);
              (HStr "result", PList [inline_property "a" (PInt 1);
                                     inline_property "b" (PStr "x")])]
             [("a", PInt 1); ("b", PStr "x")]); try reflexivity.
  apply (bool_decide_eq_true_1 _). reflexivity.
Defined.

(** ** Formatting without asking the target *)

(** X13: [format_arg] makes a request only for an object that has neither
    an inline value nor a preview but carries a handle; for every other
    argument, well-formed or not, it leaves the session as it is: an inline
    value or a preview is always preferred to a fetch. *)
Theorem format_arg_fetches_only_handles py_repr str_exn sched arg st :
  needs_fetch arg = false →
  (format_arg py_repr str_exn sched arg st).1 = st.
Proof.
  intros Hno. unfold format_arg.
  remember (get_object_properties str_exn sched 2) as fetch.
  destruct arg as [| | | | |d]; try reflexivity.
  unfold bind, lift, ret. simpl in *.
  destruct (dict_get d (HStr "value")) as [value|]; simpl in *.
  { by destruct (is_container value). }
  destruct (is_str "object" (default (PStr EmptyString)
                               (dict_get d (HStr "type")))); simpl in *.
  2:{ destruct (dict_get d (HStr "description")); simpl; [done|].
      by repeat case_if. }
  destruct (dict_get d (HStr "preview")) as [preview|]; simpl in *.
  { by destruct (preview_to_dict preview). }
  by destruct (dict_get d (HStr "objectId")).
Qed.

Lemma format_arg_fetches_only_handles_witness :
  (format_arg cpython_repr cpython_str_exn (fun _ => [])
     (obj [("type", PStr "object"); ("objectId", PStr "7");
           ("preview", obj [("overflow", PBool false)])]) connected).1
  = connected.
Proof.
  apply (format_arg_fetches_only_handles cpython_repr cpython_str_exn
           (fun _ => [])
           (obj [("type", PStr "object"); ("objectId", PStr "7");
                 ("preview", obj [("overflow", PBool false)])]) connected).
  reflexivity.
Defined.

(** X14: an object with a preview is printed from the preview, as a
    complex part: the pretty-printed mapping, behind a [[ClassName]] line
    when the descriptor names a class other than [Object] and [Array]. *)
Theorem preview_with_class_name py_repr str_exn sched d preview mapping
    class_name st :
  dict_get d (HStr "value") = None →
  dict_get d (HStr "type") = Some (PStr "object") →
  dict_get d (HStr "preview") = Some preview →
  preview_to_dict preview = Ok mapping →
  default (PStr EmptyString) (dict_get d (HStr "className")) = PStr class_name →
  format_arg py_repr str_exn sched (PDict d) st
  = (st,
     Ok (PStr (if String.eqb class_name EmptyString
                  || String.eqb class_name "Object"
                  || String.eqb class_name "Array"
               then json_dumps (PDict mapping)
               else "[" +:+ class_name +:+ "]" +:+ NL
                    +:+ json_dumps (PDict mapping)),
         true)).
Proof.
  intros Hv Ht Hp Hm Hc. unfold format_arg.
  remember (get_object_properties str_exn sched 2) as fetch.
  unfold bind, lift, ret. simpl. rewrite Hv, Ht, Hp. simpl. rewrite Hm.
  rewrite Hc. unfold decorated, decorates. simpl.
  destruct (String.eqb class_name EmptyString); simpl; [done|].
  destruct (String.eqb class_name "Object"); simpl; [done|].
  by destruct (String.eqb class_name "Array").
Qed.

Lemma preview_with_class_name_witness :
  format_arg cpython_repr cpython_str_exn (fun _ => [])
    (obj [("type", PStr "object"); ("className", PStr "Map");
          ("preview", obj [("properties", PList [])])]) connected
  = (connected, Ok (PStr ("[Map]" +:+ NL +:+ "{}"), true)).
Proof.
  apply (preview_with_class_name cpython_repr cpython_str_exn (fun _ => [])
           [(HStr "type", PStr "object"); (HStr "className", PStr "Map");
            (HStr "preview", obj [("properties", PList [])])]
           (obj [("properties", PList [])]) [] "Map" connected);
    reflexivity.
Defined.

(** ** Indentation of complex parts *)

Lemma split_lines_nonempty s : split_lines s ≠ [].
Proof.
  destruct s as [|c s]; simpl; [done|].
  destruct (Ascii.eqb c nl); [done|]. by destruct (split_lines s).
Qed.

Lemma split_lines_no_newline s :
  Forall (fun line => has_newline line = false) (split_lines s).
Proof.
  induction s as [|c s IH]; simpl; [by constructor|].
  destruct (Ascii.eqb c nl) eqn:E; [by constructor|].
  destruct (split_lines s) as [|h t]; [by constructor; [simpl; rewrite E|]|].
  apply Forall_cons in IH as [Hh Ht]. constructor; [|done].
  simpl. by rewrite E.
Qed.

Lemma split_lines_line s : has_newline s = false → split_lines s = [s].
Proof.
  induction s as [|c s IH]; simpl; [done|].
  destruct (Ascii.eqb c nl); [done|]. simpl. intros H. by rewrite IH.
Qed.

Lemma split_lines_first line s :
  has_newline line = false →
  split_lines (line +:+ NL +:+ s) = line :: split_lines s.
Proof.
  induction line as [|c line IH]; simpl.
  - intros _. unfold nl. simpl. done.
  - destruct (Ascii.eqb c nl); [done|]. simpl. intros H. by rewrite IH.
Qed.

Lemma split_lines_join lines :
  lines ≠ [] → Forall (fun line => has_newline line = false) lines →
  split_lines (join NL lines) = lines.
Proof.
  induction lines as [|line rest IH]; [done|]. intros _ Hl.
  apply Forall_cons in Hl as [Hline Hrest].
  destruct rest as [|line' rest].
  - simpl. by apply split_lines_line.
  - change (join NL (line :: line' :: rest))
      with (line +:+ NL +:+ join NL (line' :: rest)).
    rewrite split_lines_first by done. by rewrite IH.
Qed.

(** X15: what is printed for a complex part has the lines of the part,
    each behind four spaces: a part of [n] lines gives [n] lines, empty
    lines included. *)
Theorem indented_block_lines s :
  split_lines (indent_lines s)
  = map (fun line => "    " +:+ line) (split_lines s)
  ∧ length (split_lines (indent_lines s)) = length (split_lines s).
Proof.
  assert (H : split_lines (indent_lines s)
              = map (fun line => "    " +:+ line) (split_lines s)).
  { unfold indent_lines. apply split_lines_join.
    - pose proof (split_lines_nonempty s). by destruct (split_lines s).
    - apply Forall_map. eapply Forall_impl; [apply split_lines_no_newline|].
      by intros line Hline. }
  split; [done|]. by rewrite H, length_map.
Qed.

(** ** The loop after a shutdown *)



(** ** The pending map *)

#[export] Instance keeps_pending_bounded_preorder : PreOrder keeps_pending_bounded.
Proof.
  split.
  - intros st H. exact H.
  - intros st1 st2 st3 H12 H23 H. apply H23, H12, H.
Qed.

Lemma pending_bounded_shrink st st' :
  (∀ id a, pending st' !! id = Some a → pending st !! id = Some a) →
  msg_id st' = msg_id st → length (futures st') = length (futures st) →
  keeps_pending_bounded st st'.
Proof.
  intros Hsub Em El Hb id a Hp. rewrite Em, El. apply Hb. by apply Hsub.
Qed.

Lemma handle_reply_pending_subset msg st id a :
  pending (handle_reply msg st).1 !! id = Some a → pending st !! id = Some a.
Proof.
  unfold handle_reply, bind, lift, get, ret, modify; simpl.
  destruct (py_in "id" msg) as [[]|]; simpl; try done.
  destruct (py_getitem msg "id") as [key|]; simpl; try done.
  destruct (pending_find key st) as [[[n b]|]|]; simpl; try done.
  unfold set_result; simpl.
  destruct (futures st !! b) as [[| |]|]; simpl;
    by intros [_ H]%lookup_delete_Some.
Qed.

Lemma interleave_pending_subset es : ∀ st id a,
  pending (interleave es st) !! id = Some a → pending st !! id = Some a.
Proof.
  unfold interleave.
  induction es as [|e es IH]; intros st id a; simpl; [done|].
  intros H%IH. destruct e as [|msg]; simpl in H.
  - by destruct (close_frame st) as (_ & <- & _).
  - by apply handle_reply_pending_subset in H.
Qed.

Lemma pending_bounded_request method params st :
  keeps_pending_bounded st (send_command_request method params st).1.
Proof.
  destruct (send_command_request_spec method params st)
    as (Em & Ef & Ep & _).
  intros Hb id a. rewrite Em, Ef, Ep, length_app. simpl.
  intros [[<- <-]|[Hne Hp]]%lookup_insert_Some; [lia|].
  destruct (Hb id a Hp). lia.
Qed.

Lemma pending_bounded_await sched a timeout deadline st :
  keeps_pending_bounded st (await_future sched a timeout deadline st).1.
Proof.
  pose proof (await_future_counts sched a timeout deadline st) as [Em El].
  apply pending_bounded_shrink; [|done..].
  unfold await_future. intros id b.
  pose proof (interleave_pending_subset (sched a) st id b) as Hsub.
  set (st1 := interleave (sched a) st) in *.
  by destruct (futures st1 !! a) as [[| |]|].
Qed.

Lemma pending_bounded_pop id st :
  keeps_pending_bounded st (set_pending (delete id (pending st)) st).
Proof.
  apply pending_bounded_shrink; [|done..]. simpl.
  by intros id' a [_ H]%lookup_delete_Some.
Qed.

Lemma pending_bounded_reply msg st :
  keeps_pending_bounded st (handle_reply msg st).1.
Proof.
  destruct (handle_reply_frame msg st) as (_ & Em & _ & _ & [El _]).
  apply pending_bounded_shrink; [|done..]. apply handle_reply_pending_subset.
Qed.

Lemma pending_bounded_print s st : keeps_pending_bounded st (print s st).1.
Proof. by apply pending_bounded_shrink. Qed.

Lemma pending_bounded_close st : keeps_pending_bounded st (close st).
Proof.
  destruct (close_frame st) as (Em & Ep & Ef & _).
  apply pending_bounded_shrink; [by rewrite Ep | done | by rewrite Ef].
Qed.

(** X17: throughout a session every pending id is one that has been
    allocated, mapped to a future that exists; so the id the next
    [send_command] takes is never pending already, and registering a
    request never overwrites the entry of another one. *)
Theorem pending_ids_are_allocated
    py_repr str_exn json_loads signals arrivals connection_closed :
  let st := (run py_repr str_exn json_loads signals arrivals connection_closed
               connected).1 in
  (∀ id a, pending st !! id = Some a →
           id ≤ msg_id st ∧ (a < length (futures st))%nat)
  ∧ pending st !! (msg_id st + 1) = None.
Proof.
  intros st.
  assert (Hb : pending_bounded st).
  { subst st. unfold run.
    destruct (run_loop_safe keeps_pending_bounded pending_bounded_request
                pending_bounded_await pending_bounded_pop pending_bounded_reply
                pending_bounded_print pending_bounded_close
                py_repr str_exn json_loads signals arrivals connected)
      as [HR _].
    assert (H0 : pending_bounded connected) by (by intros id a).
    destruct (run_loop py_repr str_exn json_loads signals arrivals connected)
      as [st' []]; simpl in *; try (by apply HR).
    destruct connection_closed; [|by apply HR].
    by apply pending_bounded_print, HR. }
  split; [exact Hb|].
  destruct (pending st !! (msg_id st + 1)) as [a|] eqn:E; [|done].
  destruct (Hb _ _ E). lia.
Qed.

(** ** The program *)

(** X18: the exit status of the program.  Without an argument [main]
    prints the usage line and exits with status 1 before connecting; when
    the connection cannot be opened it prints one
    [[cdp-console] Error: ...] line and exits with 1; once connected, it
    ends with status 0 whatever frames arrive. *)
Theorem main_exit_status py_repr str_exn json_loads signals argv dial arrivals
    connection_closed :
  loads_plain json_loads →
  let r := main py_repr str_exn json_loads signals argv dial arrivals
             connection_closed in
  ((length argv < 2)%nat →
   r = (["Usage: cdp-console.py <websocket-url>"], Exit 1))
  ∧ ((2 ≤ length argv)%nat → dial = Ok tt → r.2 = Exit 0)
  ∧ ((2 ≤ length argv)%nat → ∀ e, dial = Raise e → is_Exception e = true →
     r = (["[cdp-console] Error: " +:+ str_exn e], Exit 1)).
Proof.
  intros Hloads. simpl. unfold main. split; [|split].
  - intros Hlen. apply Nat.ltb_lt in Hlen. by rewrite Hlen.
  - intros Hlen ->. apply Nat.ltb_ge in Hlen. rewrite Hlen.
    unfold bind at 1.
    change (connect (Ok tt) init) with (connected, Ok tt).
    pose proof (run_returns py_repr str_exn json_loads signals arrivals
                  connection_closed connected Hloads) as Hrun.
    destruct (run py_repr str_exn json_loads signals arrivals
                connection_closed connected) as [st r]. simpl in Hrun.
    by subst r.
  - intros Hlen e -> He. apply Nat.ltb_ge in Hlen. rewrite Hlen.
    unfold bind, connect, bind, lift. simpl. by rewrite He.
Qed.

Lemma main_exit_status_witness :
  main cpython_repr cpython_str_exn sample_loads (fun _ => O)
    ["cdp-console.py"] (Ok tt) [] false
  = (["Usage: cdp-console.py <websocket-url>"], Exit 1)
  ∧ (main cpython_repr cpython_str_exn sample_loads (fun _ => O)
       ["cdp-console.py"; "ws://localhost:9222/devtools/page/1"] (Ok tt)
       [Frame "{"; Frame "[1]"] true).2 = Exit 0
  ∧ main cpython_repr cpython_str_exn sample_loads (fun _ => O)
      ["cdp-console.py"; "ws://localhost:9222/devtools/page/1"]
      (Raise (OtherError "Connect call failed")) [] false
    = (["[cdp-console] Error: Connect call failed"], Exit 1).
Proof.
  destruct (main_exit_status cpython_repr cpython_str_exn sample_loads
              (fun _ => O) ["cdp-console.py"] (Ok tt) [] false
              sample_loads_plain) as (Husage & _ & _).
  destruct (main_exit_status cpython_repr cpython_str_exn sample_loads
              (fun _ => O)
              ["cdp-console.py"; "ws://localhost:9222/devtools/page/1"] (Ok tt)
              [Frame "{"; Frame "[1]"] true sample_loads_plain)
    as (_ & Hzero & _).
  destruct (main_exit_status cpython_repr cpython_str_exn sample_loads
              (fun _ => O)
              ["cdp-console.py"; "ws://localhost:9222/devtools/page/1"]
              (Raise (OtherError "Connect call failed")) [] false
              sample_loads_plain) as (_ & _ & Hfail).
  split; [|split].
  - apply Husage. simpl. lia.
  - apply Hzero; [simpl; lia | reflexivity].
  - apply (Hfail ltac:(simpl; lia) (OtherError "Connect call failed"));
      reflexivity.
Defined.

(** ** Mixed arguments and nested fetches *)

Lemma format_args_inline py_repr str_exn sched (args : list (string * pyval)) :
  ∀ simple_parts complex_parts st,
    format_args py_repr str_exn sched (map (fun a => inline a.1 a.2) args)
      simple_parts complex_parts st
    = (st,
       Ok (simple_parts
           ++ map (fun v => PStr (py_str py_repr v))
                (filter (fun v => is_container v = false) args.*2),
           complex_parts
           ++ map (fun v => PStr (json_dumps v))
                (filter (fun v => is_container v = true) args.*2))).
Proof.
  induction args as [|[ty v] args IH]; intros sp cp st; simpl.
  - by rewrite !app_nil_r.
  - unfold bind at 1. unfold inline, obj. simpl.
    rewrite (format_arg_value _ _ _ _ v) by reflexivity.
    rewrite !filter_cons. simpl.
    destruct (is_container v) eqn:E; simpl;
      repeat case_decide; try done;
      rewrite IH; simpl; by rewrite <- app_assoc.
Qed.

Lemma print_complex_strings blocks : ∀ st,
  print_complex (map PStr blocks) st
  = (set_stdout (stdout st ++ map indent_lines blocks) st, Ok tt).
Proof.
  induction blocks as [|s blocks IH]; intros st; simpl.
  - unfold ret. rewrite app_nil_r. by destruct st.
  - unfold bind, lift, print, modify. simpl. rewrite IH. simpl.
    by rewrite <- app_assoc.
Qed.

(** X19: a console call whose arguments all carry inline values prints
    one header line with the scalar values' texts in argument order, then
    one indented block per composite value in argument order: where a
    composite stood among the scalars does not show in the output. *)
Theorem inline_values_layout py_repr str_exn sched log_type
    (args : list (string * pyval)) st :
  args ≠ [] →
  handle_message py_repr str_exn sched
    (console_call log_type (map (fun a => inline a.1 a.2) args)) st
  = (set_stdout
       (stdout st
        ++ ("[console." +:+ log_type +:+ "] "
            +:+ join " " (scalar_texts py_repr args.*2))
           :: composite_blocks args.*2) st,
     Ok tt).
Proof.
  intros Hne. rewrite handle_console_call. unfold bind at 1.
  rewrite format_args_inline. simpl app. unfold emit_console.
  unfold scalar_texts, composite_blocks.
  set (scalars := filter (fun v => is_container v = false) args.*2).
  set (composites := filter (fun v => is_container v = true) args.*2).
  assert (Hsome : py_truthy (PList (map (fun v => PStr (py_str py_repr v)) scalars))
                  || py_truthy (PList (map (fun v => PStr (json_dumps v)) composites))
                  = true).
  { destruct args as [|[ty v] args]; [done|]. subst scalars composites.
    simpl. rewrite !filter_cons. simpl.
    destruct (is_container v) eqn:E; repeat case_decide; try done.
    simpl. apply orb_true_r. }
  rewrite Hsome.
  replace (map (fun v => PStr (py_str py_repr v)) scalars)
    with (map PStr (map (py_str py_repr) scalars)) by (by rewrite map_map).
  replace (map (fun v => PStr (json_dumps v)) composites)
    with (map PStr (map json_dumps composites)) by (by rewrite map_map).
  assert (Hline : (if py_truthy (PList (map PStr (map (py_str py_repr) scalars)))
                   then py_join " " (map PStr (map (py_str py_repr) scalars))
                   else Ok EmptyString)
                  = Ok (join " " (map (py_str py_repr) scalars))).
  { unfold py_join. rewrite strs_from_strings. simpl.
    by destruct scalars. }
  rewrite Hline. unfold bind, lift, print, modify. simpl.
  rewrite print_complex_strings. simpl.
  rewrite <- app_assoc. simpl. by rewrite map_map.
Qed.

Lemma inline_values_layout_witness :
  handle_message cpython_repr cpython_str_exn (fun _ => [])
    (console_call "log"
       [inline "string" (PStr "a"); inline "object" (PList []);
        inline "boolean" (PBool true)])
    connected
  = (set_stdout ["[console.log] a True"; "    []"] connected, Ok tt).
Proof.
  apply (inline_values_layout cpython_repr cpython_str_exn (fun _ => []) "log"
           [("string", PStr "a"); ("object", PList []);
            ("boolean", PBool true)] connected).
  discriminate.
Defined.

Lemma get_object_properties_abandoned str_exn sched max_depth object_id st :
  is_open st = true →
  sched (length (futures st)) = [] →
  get_object_properties str_exn sched max_depth object_id st
  = (abandoned st (getProperties_command (msg_id st + 1) object_id),
     Ok (PStr "[Object: timeout]")).
Proof.
  intros Hopen Hsched. rewrite get_object_properties_unfold.
  unfold try_except, get_object_properties_try, bind at 1.
  by rewrite fetch_abandoned by done.
Qed.

(** X20: a property that is an object known by its handle only is
    fetched in turn when the depth allows it, and a nested fetch that
    times out costs that property alone: it becomes ["[Object: timeout]"]
    in the parent's mapping.  At depth 0 the property is not fetched, and
    having no description either it is left out of the mapping. *)
Theorem nested_timeout_degrades str_exn sched max_depth object_id st d
    name nested_id :
  is_open st = true →
  sched (length (futures st)) = [EnvReply (PDict d)] →
  sched (S (length (futures st))) = [] →
  dict_get d (HStr "id") = Some (PInt (msg_id st + 1)) →
  dict_get d (HStr "result") = Some (PList [handle_property name nested_id]) →
  let st1 := answered st (getProperties_command (msg_id st + 1) object_id)
               (PDict d) in
  get_object_properties str_exn sched (S max_depth) object_id st
  = (abandoned st1 (getProperties_command (msg_id st + 1 + 1) nested_id),
     Ok (PDict [(HStr name, PStr "[Object: timeout]")]))
  ∧ get_object_properties str_exn sched 0 object_id st = (st1, Ok (PDict [])).
Proof.
  intros Hopen Hsched Hnested Hid Hres st1. subst st1. split.
  - rewrite (get_object_properties_answered _ _ _ _ _ d) by done.
    unfold try_except, bind at 1, lift at 1. simpl. rewrite Hres. simpl.
    do 2 (unfold bind at 1, lift at 1; simpl).
    unfold bind at 1. simpl.
    do 6 (unfold bind at 1, lift at 1; simpl).
    unfold bind at 1. unfold bind at 1.
    rewrite get_object_properties_abandoned.
    + reflexivity.
    + reflexivity.
    + simpl. rewrite length_app. simpl. by rewrite Nat.add_1_r.
  - rewrite (get_object_properties_answered _ _ _ _ _ d) by done.
    unfold try_except, bind, lift, ret. simpl. rewrite Hres. reflexivity.
Qed.

Lemma nested_timeout_degrades_witness :
  let sched := fun a => match a with
                        | O => [EnvReply (reply 4 (PList [handle_property "k"
                                                            (PStr "9")]))]
                        | _ => []
                        end in
  (get_object_properties cpython_str_exn sched 2 (PStr "7") connected).2
  = Ok (PDict [(HStr "k", PStr "[Object: timeout]")])
  ∧ (get_object_properties cpython_str_exn sched 0 (PStr "7") connected).2
    = Ok (PDict []).
Proof.
  intros sched.
  destruct (nested_timeout_degrades cpython_str_exn sched 1 (PStr "7") connected
              [(HStr "id", PInt 4);
               (HStr "result", PList [handle_property "k" (PStr "9")])]
              "k" (PStr "9") eq_refl eq_refl eq_refl eq_refl eq_refl)
    as [H2 H0].
  split; [exact (f_equal snd H2) | exact (f_equal snd H0)].
Defined.

Lemma pending_ids_are_allocated_witness :
  let st := (run cpython_repr cpython_str_exn sample_loads (fun _ => O)
               [Frame (json_dumps sample_event)] false connected).1 in
  pending st !! 4 = Some 0%nat ∧ pending st !! 5 = None.
Proof.
  intros st.
  destruct (pending_ids_are_allocated cpython_repr cpython_str_exn sample_loads
              (fun _ => O) [Frame (json_dumps sample_event)] false)
    as [_ Hnext].
  split; [reflexivity | exact Hnext].
Defined.
